(** * Police-Cam-Detector: the surveillance and alert engine

    A shallow embedding of the class [PoliceAISystem] of [Police_Cam.py]
    and the properties of its match decision, its alert debouncer, its
    registry and its start-up path.

    Python floats are IEEE-754 binary64 values, which is what Rocq's
    primitive [float] is, so distances, thresholds and confidences are
    [float]s and [<], [<=] and [-] are the primitive operations.  The
    engine object is a record threaded through a state monad, together
    with the part of the outside world the engine touches (wall clock,
    file system, the sequence of capability invocations).  Exceptions are
    an explicit outcome; state changes made before a [raise] persist, as
    they do in Python. *)

Set Warnings "-inexact-float".
From Stdlib Require Import Floats ZArith.
From stdpp Require Import base option list strings gmap.

Open Scope string_scope.

(** ** Outcomes and Python-style indexing *)

Inductive outcome (A : Type) : Type :=
| Ret (a : A)
| Raise (exn : string).
Arguments Ret {A} a.
Arguments Raise {A} exn.

(** [l[i]] for a non-negative index: [IndexError] out of range. *)
Definition index {A : Type} (l : list A) (i : nat) : outcome A :=
  match l !! i with
  | Some x => Ret x
  | None => Raise "IndexError: list index out of range"
  end.

(** ** [np.argmin] on a one-dimensional array of doubles

    NumPy starts from element 0, returns at once when it is a NaN, and
    replaces the running minimum [mp] by [x] whenever [!(x >= mp)], which
    is true when [x] is smaller and when [x] is a NaN; a NaN ends the
    scan.  The first minimal element wins.  An empty array raises. *)

Fixpoint argmin_scan (min_ind : nat) (mp : float) (i : nat) (ip : list float) : nat :=
  match ip with
  | [] => min_ind
  | x :: ip' =>
      if negb (mp <=? x)%float
      then (if is_nan x then i else argmin_scan i x (S i) ip')
      else argmin_scan min_ind mp (S i) ip'
  end.

Definition argmin (a : list float) : outcome nat :=
  match a with
  | [] => Raise "ValueError: attempt to get argmin of an empty sequence"
  | mp :: ip => Ret (if is_nan mp then 0 else argmin_scan 0 mp 1 ip)
  end.

(** ** Values stored in the alert log

    An alert is a Python [dict] with string keys; insertion order is kept
    by Python and by [json.dump], so it is an association list here. *)

Inductive pyvalue : Type :=
| PyStr (s : string)
| PyFloat (f : float).

Definition alert_data : Type := list (string * pyvalue).

(** A [cv2.VideoCapture] object: what [isOpened()] answers. *)
Record VideoCapture : Type := mkVideoCapture {
  cap_index : Z;
  isOpened : bool;
}.

(** A [threading.Thread] object: whether its [start()] has returned.
    [join()] on a thread that was never started raises. *)
Record Thread : Type := mkThread {
  started : bool;
}.

(** Face locations are [(top, right, bottom, left)] tuples. *)
Definition location : Type := (Z * Z * Z * Z)%type.

(** Every call the engine makes to a collaborator outside the class. *)
Inductive capability : Type :=
| mixer_init            (* pygame.mixer.init() *)
| makedirs (directory : string)
| load_image_file (image_path : string)
| face_encodings
| face_locations
| compare_faces
| face_distance
| cv2_VideoCapture (camera_index : Z)
| cap_read
| cap_release
| cv2_resize
| cv2_imwrite (alert_image_path : string)
| alert_sound           (* winsound.Beep / pygame sound.play *)
| Timer_start           (* threading.Timer(5.0, self._reset_alert).start() *)
| Thread_start          (* self.detection_thread.start() *)
| Thread_join
| sleep                 (* time.sleep(0.1) *)
| open_w (log_file : string).

Inductive event : Type :=
| Call (c : capability)
| Print (msg : string).

(** ** The monad: state and exceptions

    A computation takes the state and gives an outcome and the state it
    leaves; the state left by a [Raise] is the state at the [raise]. *)

Definition StateExn (S A : Type) : Type := S -> outcome A * S.

Definition ret {S A} (a : A) : StateExn S A := fun st => (Ret a, st).
Definition raise {S A} (exn : string) : StateExn S A := fun st => (Raise exn, st).
Definition bind {S A B} (m : StateExn S A) (k : A -> StateExn S B) : StateExn S B :=
  fun st =>
    match m st with
    | (Ret a, st') => k a st'
    | (Raise exn, st') => (Raise exn, st')
    end.
(** [try: body / except Exception as e: handler e] *)
Definition try_except {S A} (body : StateExn S A) (handler : string -> StateExn S A)
  : StateExn S A :=
  fun st =>
    match body st with
    | (Ret a, st') => (Ret a, st')
    | (Raise exn, st') => handler exn st'
    end.
Definition lift {S A} (o : outcome A) : StateExn S A := fun st => (o, st).

Notation "x <- m ;; k" := (bind m (fun x => k))
  (at level 100, m at next level, k at level 200, right associativity).
Notation "m ;;; k" := (bind m (fun _ => k))
  (at level 100, k at level 200, right associativity).

(** ** The engine object and the world around it *)

Section Engine.

(** Opaque data of the collaborators: images and frames (NumPy arrays),
    face encodings, [datetime] objects and the text of a written file. *)
Context {image encoding datetime text : Type}.

(** The collaborators themselves.  Each is a function of its arguments;
    the ones that can fail return an [outcome]. *)
Class Capabilities : Type := mkCapabilities {
  (* pygame *)
  pygame_mixer_init : outcome unit;
  play_sound : outcome unit;
  (* face_recognition *)
  fr_load_image_file : string -> outcome image;
  fr_face_locations : image -> outcome (list location);
  fr_face_encodings : image -> option (list location) -> outcome (list encoding);
  fr_compare_faces : list encoding -> encoding -> outcome (list bool);
  fr_face_distance : list encoding -> encoding -> outcome (list float);
  (* cv2 *)
  VideoCapture_new : Z -> outcome VideoCapture;
  (* threading: start() of the detection thread; it raises RuntimeError
     when no new thread can be started *)
  thread_start : outcome unit;
  resize_quarter : image -> outcome image;     (* fx=0.25, fy=0.25 *)
  bgr_to_rgb : image -> image;                 (* [:, :, ::-1] *)
  imwrite : string -> image -> outcome bool;
  (* datetime: the n-th reading of the wall clock and its renderings *)
  now : nat -> datetime;
  isoformat : datetime -> string;
  strftime_Ymd_HMS : datetime -> string;       (* "%Y%m%d_%H%M%S" *)
  (* json.dump(_, f, indent=2) *)
  json_dump : list alert_data -> text;
}.

Context {caps : Capabilities}.

Record PoliceAISystem : Type := mkPoliceAISystem {
  known_faces : list encoding;
  known_names : list string;
  known_details : list string;
  surveillance_active : bool;
  camera_cap : option VideoCapture;
  current_frame : option image;
  detection_thread : option Thread;
  alert_active : bool;
  confidence_threshold : float;
  alert_log : list alert_data;
}.

Record World : Type := mkWorld {
  ticks : nat;                      (* readings of datetime.now() so far *)
  dirs : gset string;
  files : gmap string text;
  trace : list event;               (* oldest first *)
}.

Definition state : Type := (PoliceAISystem * World)%type.

(** *** The engine's computations *)

Definition M (A : Type) : Type := StateExn state A.

Definition get_self : M PoliceAISystem := fun st => (Ret (fst st), st).
Definition modify_self (f : PoliceAISystem -> PoliceAISystem) : M unit :=
  fun st => (Ret tt, (f (fst st), snd st)).
Definition get_world : M World := fun st => (Ret (snd st), st).
Definition modify_world (f : World -> World) : M unit :=
  fun st => (Ret tt, (fst st, f (snd st))).

Definition log_event (e : event) (w : World) : World :=
  mkWorld (ticks w) (dirs w) (files w) (trace w ++ [e]).
Definition emit (e : event) : M unit := modify_world (log_event e).
Definition print (msg : string) : M unit := emit (Print msg).
(** Invoke a collaborator: the invocation is recorded, then its answer
    is returned or raised. *)
Definition call {A} (c : capability) (answer : outcome A) : M A :=
  emit (Call c) ;;; lift answer.

Definition datetime_now : M datetime :=
  fun st =>
    let w := snd st in
    (Ret (now (ticks w)),
     (fst st, mkWorld (S (ticks w)) (dirs w) (files w) (trace w))).

(** *** Attribute assignment *)

Definition set_known_faces v (s : PoliceAISystem) :=
  mkPoliceAISystem v (known_names s) (known_details s) (surveillance_active s)
    (camera_cap s) (current_frame s) (detection_thread s) (alert_active s)
    (confidence_threshold s) (alert_log s).
Definition set_known_names v (s : PoliceAISystem) :=
  mkPoliceAISystem (known_faces s) v (known_details s) (surveillance_active s)
    (camera_cap s) (current_frame s) (detection_thread s) (alert_active s)
    (confidence_threshold s) (alert_log s).
Definition set_known_details v (s : PoliceAISystem) :=
  mkPoliceAISystem (known_faces s) (known_names s) v (surveillance_active s)
    (camera_cap s) (current_frame s) (detection_thread s) (alert_active s)
    (confidence_threshold s) (alert_log s).
Definition set_surveillance_active v (s : PoliceAISystem) :=
  mkPoliceAISystem (known_faces s) (known_names s) (known_details s) v
    (camera_cap s) (current_frame s) (detection_thread s) (alert_active s)
    (confidence_threshold s) (alert_log s).
Definition set_camera_cap v (s : PoliceAISystem) :=
  mkPoliceAISystem (known_faces s) (known_names s) (known_details s)
    (surveillance_active s) v (current_frame s) (detection_thread s)
    (alert_active s) (confidence_threshold s) (alert_log s).
Definition set_current_frame v (s : PoliceAISystem) :=
  mkPoliceAISystem (known_faces s) (known_names s) (known_details s)
    (surveillance_active s) (camera_cap s) v (detection_thread s)
    (alert_active s) (confidence_threshold s) (alert_log s).
Definition set_detection_thread v (s : PoliceAISystem) :=
  mkPoliceAISystem (known_faces s) (known_names s) (known_details s)
    (surveillance_active s) (camera_cap s) (current_frame s) v
    (alert_active s) (confidence_threshold s) (alert_log s).
Definition set_alert_active v (s : PoliceAISystem) :=
  mkPoliceAISystem (known_faces s) (known_names s) (known_details s)
    (surveillance_active s) (camera_cap s) (current_frame s)
    (detection_thread s) v (confidence_threshold s) (alert_log s).
Definition set_confidence_threshold v (s : PoliceAISystem) :=
  mkPoliceAISystem (known_faces s) (known_names s) (known_details s)
    (surveillance_active s) (camera_cap s) (current_frame s)
    (detection_thread s) (alert_active s) v (alert_log s).
Definition set_alert_log v (s : PoliceAISystem) :=
  mkPoliceAISystem (known_faces s) (known_names s) (known_details s)
    (surveillance_active s) (camera_cap s) (current_frame s)
    (detection_thread s) (alert_active s) (confidence_threshold s) v.

(** *** The methods of [PoliceAISystem] *)

Definition path_exists (p : string) (w : World) : bool :=
  bool_decide (p ∈ dirs w) || bool_decide (is_Some (files w !! p)).

Definition os_makedirs (directory : string) : M unit :=
  emit (Call (makedirs directory)) ;;;
  modify_world (fun w =>
    mkWorld (ticks w) ({[ directory ]} ∪ dirs w) (files w) (trace w)).

Fixpoint for_each {A} (xs : list A) (body : A -> M unit) : M unit :=
  match xs with
  | [] => ret tt
  | x :: xs' => body x ;;; for_each xs' body
  end.

Definition create_directories : M unit :=
  for_each ["suspects"; "alerts"; "logs"] (fun directory =>
    w <- get_world ;;
    if negb (path_exists directory w) then os_makedirs directory else ret tt).

Definition fresh : PoliceAISystem :=
  mkPoliceAISystem [] [] [] false None None None false 0.6%float [].

Definition __init__ : M unit :=
  modify_self (fun _ => fresh) ;;;
  try_except (call mixer_init pygame_mixer_init)
             (fun _ => print "Audio system not available") ;;;
  create_directories.

Definition add_suspect (image_path name details : string) : M bool :=
  try_except
    (image_ <- call (load_image_file image_path)
                    (fr_load_image_file image_path) ;;
     face_encodings_ <- call face_encodings (fr_face_encodings image_ None) ;;
     match face_encodings_ with
     | enc0 :: _ =>
         modify_self (fun s => set_known_faces (known_faces s ++ [enc0]) s) ;;;
         modify_self (fun s => set_known_names (known_names s ++ [name]) s) ;;;
         modify_self (fun s => set_known_details (known_details s ++ [details]) s) ;;;
         ret true
     | [] => ret false
     end)
    (fun e => print ("Error adding suspect: " ++ e) ;;; ret false).

Definition add_suspect_from_array (image_array : image) (name details : string)
  : M bool :=
  try_except
    (face_encodings_ <- call face_encodings
                             (fr_face_encodings image_array None) ;;
     match face_encodings_ with
     | enc0 :: _ =>
         modify_self (fun s => set_known_faces (known_faces s ++ [enc0]) s) ;;;
         modify_self (fun s => set_known_names (known_names s ++ [name]) s) ;;;
         modify_self (fun s => set_known_details (known_details s ++ [details]) s) ;;;
         ret true
     | [] => ret false
     end)
    (fun e => print ("Error adding suspect: " ++ e) ;;; ret false).

Definition start_surveillance (camera_index : Z) : M bool :=
  s <- get_self ;;
  if surveillance_active s then ret false
  else
    try_except
      (cap <- call (cv2_VideoCapture camera_index)
                   (VideoCapture_new camera_index) ;;
       modify_self (set_camera_cap (Some cap)) ;;;
       if negb (isOpened cap) then ret false
       else
         modify_self (set_surveillance_active true) ;;;
         modify_self (set_detection_thread (Some (mkThread false))) ;;;
         call Thread_start thread_start ;;;
         modify_self (set_detection_thread (Some (mkThread true))) ;;;
         ret true)
      (fun e => print ("Error starting surveillance: " ++ e) ;;; ret false).

Definition stop_surveillance : M unit :=
  modify_self (set_surveillance_active false) ;;;
  s <- get_self ;;
  match detection_thread s with
  | Some thread =>
      emit (Call Thread_join) ;;;
      if started thread then ret tt
      else raise "RuntimeError: cannot join thread before it is started"
  | None => ret tt
  end ;;;
  match camera_cap s with
  | Some _ => emit (Call cap_release) ;;; modify_self (set_camera_cap None)
  | None => ret tt
  end.

Definition _play_alert_sound : M unit :=
  try_except (call alert_sound play_sound)
             (fun e => print ("Audio alert error: " ++ e)).

Definition _reset_alert : M unit :=
  modify_self (set_alert_active false).

Definition _trigger_alert (name details : string) (confidence : float)
    (frame : image) : M unit :=
  s <- get_self ;;
  if alert_active s then ret tt
  else
    modify_self (set_alert_active true) ;;;
    t <- datetime_now ;;
    let alert_data_ : alert_data :=
      [ ("timestamp", PyStr (isoformat t));
        ("suspect_name", PyStr name);
        ("suspect_details", PyStr details);
        ("confidence", PyFloat confidence);
        ("location", PyStr "Camera Feed") ] in
    modify_self (fun s => set_alert_log (alert_log s ++ [alert_data_]) s) ;;;
    t' <- datetime_now ;;
    let timestamp := strftime_Ymd_HMS t' in
    let alert_image_path := "alerts/alert_" ++ name ++ "_" ++ timestamp ++ ".jpg" in
    _ <- call (cv2_imwrite alert_image_path) (imwrite alert_image_path frame) ;;
    _play_alert_sound ;;;
    emit (Call Timer_start).

(** The condition of the [if] on line 143,
    [matches[best_match_index] and
     face_distances[best_match_index] < self.confidence_threshold];
    [and] evaluates its right operand only when the left one is true. *)
Definition is_suspect (matches : list bool) (face_distances : list float)
    (best_match_index : nat) (threshold : float) : outcome bool :=
  match index matches best_match_index with
  | Raise e => Raise e
  | Ret false => Ret false
  | Ret true =>
      match index face_distances best_match_index with
      | Raise e => Raise e
      | Ret d => Ret (d <? threshold)%float
      end
  end.

(** The body of the [for] loop of [_detect_faces] for one detected face. *)
Definition match_face (face_encoding : encoding) (frame : image) : M unit :=
  s <- get_self ;;
  matches <- call compare_faces
                  (fr_compare_faces (known_faces s) face_encoding) ;;
  face_distances <- call face_distance
                         (fr_face_distance (known_faces s) face_encoding) ;;
  best_match_index <- lift (argmin face_distances) ;;
  accepted <- lift (is_suspect matches face_distances best_match_index
                               (confidence_threshold s)) ;;
  if (accepted : bool) then
    suspect_name <- lift (index (known_names s) best_match_index) ;;
    suspect_details <- lift (index (known_details s) best_match_index) ;;
    d <- lift (index face_distances best_match_index) ;;
    let confidence := (1 - d)%float in
    _trigger_alert suspect_name suspect_details confidence frame
  else ret tt.

Definition _detect_faces (frame : image) : M unit :=
  try_except
    (small_frame <- call cv2_resize (resize_quarter frame) ;;
     let rgb_small_frame := bgr_to_rgb small_frame in
     face_locations_ <- call face_locations
                             (fr_face_locations rgb_small_frame) ;;
     face_encodings_ <- call face_encodings
                             (fr_face_encodings rgb_small_frame
                                                (Some face_locations_)) ;;
     for_each (zip face_locations_ face_encodings_)
              (fun '(_, face_encoding) => match_face face_encoding frame))
    (fun e => print ("Detection error: " ++ e)).

(** [_surveillance_loop] over the reads the camera answers with:
    [None] is [ret = False], [Some frame] is [(True, frame)].  The run
    ends when the loop condition fails or the given reads are used up. *)
Fixpoint _surveillance_loop (reads : list (option image)) : M unit :=
  match reads with
  | [] => ret tt
  | rd :: reads' =>
      s <- get_self ;;
      if surveillance_active s && bool_decide (is_Some (camera_cap s)) then
        emit (Call cap_read) ;;;
        match rd with
        | None => _surveillance_loop reads'
        | Some frame =>
            modify_self (set_current_frame (Some frame)) ;;;
            s' <- get_self ;;
            (if bool_decide (0 < length (known_faces s')) then _detect_faces frame
             else ret tt) ;;;
            emit (Call sleep) ;;;
            _surveillance_loop reads'
        end
      else ret tt
  end.

(** [open(log_file, 'w')] inside [directory]: it fails when the
    directory is missing, otherwise the file holds what is written. *)
Definition write_file (directory base : string) (content : text) : M unit :=
  let log_file := directory ++ "/" ++ base in
  emit (Call (open_w log_file)) ;;;
  w <- get_world ;;
  if bool_decide (directory ∈ dirs w) then
    modify_world (fun w =>
      mkWorld (ticks w) (dirs w) (<[ log_file := content ]> (files w)) (trace w))
  else raise ("FileNotFoundError: " ++ log_file).

Definition save_logs : M string :=
  t <- datetime_now ;;
  let timestamp := strftime_Ymd_HMS t in
  let base := "alert_log_" ++ timestamp ++ ".json" in
  s <- get_self ;;
  write_file "logs" base (json_dump (alert_log s)) ;;;
  ret ("logs" ++ "/" ++ base).

(** *** Vocabulary of the properties *)

(** The events recorded between [st] and [st']. *)
Definition new_events (st st' : state) (evs : list event) : Prop :=
  trace (snd st') = (trace (snd st) ++ evs)%list.

(** The camera source cannot be opened: the constructor raises, or the
    object it returns answers [False] to [isOpened()]. *)
Definition unopenable (camera_index : Z) : Prop :=
  match VideoCapture_new camera_index with
  | Ret cap => isOpened cap = false
  | Raise _ => True
  end.

(** What reaches the debouncer: an accepted match (the call on line
    149) or the expiry of the five-second timer. *)
Inductive debounce_input : Type :=
| accepted_match (name details : string) (confidence : float) (frame : image)
| cooldown_expiry.

(** An accepted match calls [_trigger_alert] under the [try] of
    [_detect_faces]; the timer calls [_reset_alert]. *)
Definition debounce_step (i : debounce_input) : M unit :=
  match i with
  | accepted_match name details confidence frame =>
      try_except (_trigger_alert name details confidence frame)
                 (fun e => print ("Detection error: " ++ e))
  | cooldown_expiry => _reset_alert
  end.

(** Idle-to-Active transitions along a sequence of inputs. *)
Fixpoint idle_to_active (active : bool) (ins : list debounce_input) : nat :=
  match ins with
  | [] => 0
  | accepted_match _ _ _ _ :: ins' =>
      (if active then 0 else 1) + idle_to_active true ins'
  | cooldown_expiry :: ins' => idle_to_active false ins'
  end.

Definition alert_record (timestamp name details : string) (confidence : float)
  : alert_data :=
  [ ("timestamp", PyStr timestamp);
    ("suspect_name", PyStr name);
    ("suspect_details", PyStr details);
    ("confidence", PyFloat confidence);
    ("location", PyStr "Camera Feed") ].

Definition loop_only (e : event) : Prop :=
  e = Call cap_read \/ e = Call sleep.

(** The world after the two matcher calls of one loop iteration. *)
Definition after_matching (w : World) : World :=
  log_event (Call face_distance) (log_event (Call compare_faces) w).

(** What the detector finds in a frame (lines 129-136): the frame is
    shrunk, turned to RGB, searched for faces and encoded, and locations
    and encodings are paired; any of the three calls may raise. *)
Definition detected_faces (frame : image) : outcome (list (location * encoding)) :=
  match resize_quarter frame with
  | Raise e => Raise e
  | Ret small_frame =>
      let rgb_small_frame := bgr_to_rgb small_frame in
      match fr_face_locations rgb_small_frame with
      | Raise e => Raise e
      | Ret face_locations_ =>
          match fr_face_encodings rgb_small_frame (Some face_locations_) with
          | Raise e => Raise e
          | Ret face_encodings_ => Ret (zip face_locations_ face_encodings_)
          end
      end
  end.

(** [a] is the record of the accepted best match of [face_encoding]
    against the registry of [s] (lines 138-147): the matcher and the
    distances are those of this face, [i] is the best-match index, the
    condition of line 143 holds, and name, details and distance are the
    ones at [i]. *)
Definition accepted_alert (s : PoliceAISystem) (face_encoding : encoding)
    (a : alert_data) : Prop :=
  exists matches face_distances i d suspect_name suspect_details timestamp,
    fr_compare_faces (known_faces s) face_encoding = Ret matches
    /\ fr_face_distance (known_faces s) face_encoding = Ret face_distances
    /\ argmin face_distances = Ret i
    /\ is_suspect matches face_distances i (confidence_threshold s) = Ret true
    /\ face_distances !! i = Some d
    /\ known_names s !! i = Some suspect_name
    /\ known_details s !! i = Some suspect_details
    /\ a = alert_record timestamp suspect_name suspect_details (1 - d)%float.

(** [a] is such a record for one of the faces detected in [frame]. *)
Definition frame_alert (s : PoliceAISystem) (frame : image) (a : alert_data) : Prop :=
  exists faces loc face_encoding,
    detected_faces frame = Ret faces
    /\ (loc, face_encoding) ∈ faces
    /\ accepted_alert s face_encoding a.

(** [a] is such a record for a face of one of the frames read. *)
Definition reads_alert (s : PoliceAISystem) (reads : list (option image))
    (a : alert_data) : Prop :=
  exists frame, Some frame ∈ reads /\ frame_alert s frame a.

Definition registry_alert (s : PoliceAISystem) (a : alert_data) : Prop :=
  exists face_encoding, accepted_alert s face_encoding a.

(** Registry and threshold are the same in [s] and [s']. *)
Definition same_registry (s s' : PoliceAISystem) : Prop :=
  known_faces s' = known_faces s
  /\ known_names s' = known_names s
  /\ known_details s' = known_details s
  /\ confidence_threshold s' = confidence_threshold s.

(** The alert log grew by [new] under the debouncer's discipline. *)
Definition debounced (s s' : PoliceAISystem) (new : list alert_data) : Prop :=
  alert_log s' = (alert_log s ++ new)%list
  /\ length new <= 1
  /\ (alert_active s = true -> new = [])
  /\ (alert_active s = true \/ new <> [] -> alert_active s' = true).

(** A computation that leaves the registry alone and touches the alert
    log only by appending, debounced, records that satisfy [Q] of the
    engine it started from. *)
Definition alerts_of (Q : PoliceAISystem -> alert_data -> Prop) {A} (m : M A)
  : Prop :=
  forall st, exists o st' new,
    m st = (o, st')
    /\ same_registry (fst st) (fst st')
    /\ debounced (fst st) (fst st') new
    /\ Forall (Q (fst st)) new.

(** The same, for records of accepted best matches of any face. *)
Definition alerts_only {A} (m : M A) : Prop := alerts_of registry_alert m.


Definition registry_consistent (s : PoliceAISystem) : Prop :=
  length (known_faces s) = length (known_names s)
  /\ length (known_names s) = length (known_details s).

(** What can happen to an engine once it is constructed: the calls the
    interface makes, the body of the detection thread, the timer's
    callback, and the slider's assignment to [confidence_threshold].
    An operation is a method run from its first statement to its last
    with nothing in between; what the detection thread sees in the
    middle of a registration is [interleaved], below. *)
Inductive operation : Type :=
| do_add_suspect (image_path name details : string)
| do_add_suspect_from_array (image_array : image) (name details : string)
| do_start_surveillance (camera_index : Z)
| do_stop_surveillance
| do_surveillance_loop (reads : list (option image))
| do_detect_faces (frame : image)
| do_trigger_alert (name details : string) (confidence : float) (frame : image)
| do_reset_alert
| do_set_confidence_threshold (value : float)
| do_save_logs.

Definition perform (op : operation) (st : state) : state :=
  match op with
  | do_add_suspect image_path name details =>
      snd (add_suspect image_path name details st)
  | do_add_suspect_from_array image_array name details =>
      snd (add_suspect_from_array image_array name details st)
  | do_start_surveillance camera_index => snd (start_surveillance camera_index st)
  | do_stop_surveillance => snd (stop_surveillance st)
  | do_surveillance_loop reads => snd (_surveillance_loop reads st)
  | do_detect_faces frame => snd (_detect_faces frame st)
  | do_trigger_alert name details confidence frame =>
      snd (_trigger_alert name details confidence frame st)
  | do_reset_alert => snd (_reset_alert st)
  | do_set_confidence_threshold value =>
      snd (modify_self (set_confidence_threshold value) st)
  | do_save_logs => snd (save_logs st)
  end.

Definition run (ops : list operation) (st : state) : state :=
  fold_left (fun st op => perform op st) ops st.

(** The engine as [PoliceAISystem()] leaves it, in world [w]. *)
Definition constructed (w : World) : state := snd (__init__ (fresh, w)).

(** *** A registration, statement by statement

    [add_suspect] runs on the thread of the interface and
    [_detect_faces] on the detection thread, and the class takes no
    lock: the detection thread can run between any two of the three
    appends of lines 54-56 (70-72 in [add_suspect_from_array]).  A
    registration that found a face stands before one of them, or
    before its [return True]. *)
Inductive registration : Type :=
| before_known_faces (enc0 : encoding) (name details : string)  (* line 54 *)
| before_known_names (name details : string)                    (* line 55 *)
| before_known_details (details : string)                       (* line 56 *)
| before_return.                                                (* line 57 *)

Definition registration_step (r : registration) (s : PoliceAISystem)
  : PoliceAISystem * registration :=
  match r with
  | before_known_faces enc0 name details =>
      (set_known_faces (known_faces s ++ [enc0]) s, before_known_names name details)
  | before_known_names name details =>
      (set_known_names (known_names s ++ [name]) s, before_known_details details)
  | before_known_details details =>
      (set_known_details (known_details s ++ [details]) s, before_return)
  | before_return => (s, before_return)
  end.

(** What runs next: the next statement of the registration, or the
    detection thread with [_detect_faces] on a frame. *)
Inductive thread_step : Type :=
| registering
| detecting (frame : image).

Definition interleaved_step (t : thread_step) (x : state * registration)
  : state * registration :=
  match t with
  | registering =>
      let (s', r') := registration_step (snd x) (fst (fst x)) in
      ((s', snd (fst x)), r')
  | detecting frame => (snd (_detect_faces frame (fst x)), snd x)
  end.

Definition interleaved (schedule : list thread_step) (x : state * registration)
  : state * registration :=
  fold_left (fun x t => interleaved_step t x) schedule x.

(** Where the registry stands at each statement of a registration. *)
Definition registry_at (r : registration) (s : PoliceAISystem) : Prop :=
  match r with
  | before_known_faces _ _ _ | before_return => registry_consistent s
  | before_known_names _ _ =>
      length (known_faces s) = S (length (known_names s))
      /\ length (known_names s) = length (known_details s)
  | before_known_details _ =>
      length (known_faces s) = length (known_names s)
      /\ length (known_names s) = S (length (known_details s))
  end.

End Engine.

(** ** A deterministic matcher, for running the engine

    Encodings are single numbers and an image is the list of the faces in
    it, so that distances are fixed by the input.  [compare_faces] is
    called on line 138 without a tolerance, so with the library's default
    of 0.6: an entry matches when its distance is at most 0.6. *)

Module Demo.

Definition distance (known face : float) : float := abs (known - face).

Definition caps : @Capabilities (list float) float nat (list alert_data) :=
  {| pygame_mixer_init := Ret tt;
     play_sound := Ret tt;
     fr_load_image_file := fun image_path =>
       if String.eqb image_path "suspect.jpg" then Ret [0.25%float]
       else if String.eqb image_path "landscape.jpg" then Ret []
       else Raise "FileNotFoundError";
     fr_face_locations := fun img => Ret (map (fun _ => (0, 0, 0, 0)%Z) img);
     fr_face_encodings := fun img _ => Ret img;
     fr_compare_faces := fun known face =>
       Ret (map (fun k => (distance k face <=? 0.6)%float) known);
     fr_face_distance := fun known face =>
       Ret (map (fun k => distance k face) known);
     VideoCapture_new := fun camera_index =>
       Ret (mkVideoCapture camera_index (camera_index =? 0)%Z);
     thread_start := Ret tt;
     resize_quarter := fun img => Ret img;
     bgr_to_rgb := fun img => img;
     imwrite := fun _ _ => Ret true;
     now := fun n => n;
     isoformat := fun _ => "2024-05-01T12:00:00";
     strftime_Ymd_HMS := fun _ => "20240501_120000";
     json_dump := fun log => log |}.

Definition json_load (t : list alert_data) : option (list alert_data) := Some t.

Definition empty_world : @World (list alert_data) := mkWorld 0 ∅ ∅ [].

(** One registered suspect, encoding 0, with the given threshold. *)
Definition engine (threshold : float) : @PoliceAISystem (list float) float :=
  mkPoliceAISystem [0%float] ["Doe"] ["wanted"] false None None None false
                   threshold [].

Definition watching : @PoliceAISystem (list float) float :=
  mkPoliceAISystem [] [] [] true (Some (mkVideoCapture 0 true)) None
                   (Some (mkThread true)) false
                   0.6%float [].

End Demo.

(** ** What the operations keep

    Relations between the state before and after a computation, and the
    computations that stay within one. *)

Section Keeping.

Context {image encoding datetime text : Type}.
Context {caps : @Capabilities image encoding datetime text}.

Local Abbreviation PoliceAISystem := (@PoliceAISystem image encoding).
Local Abbreviation World := (@World text).
Local Abbreviation state := (@state image encoding text).
Local Abbreviation M := (@M image encoding text).

(** [m] takes every state to an [R]-related state, whether it returns or
    raises. *)
Definition preserves (R : state -> state -> Prop) {A} (m : M A) : Prop :=
  forall st, R st (snd (m st)).

(** A relation on engines, as a relation on states. *)
Definition on_self (R : PoliceAISystem -> PoliceAISystem -> Prop)
  : state -> state -> Prop :=
  fun st st' => R (fst st) (fst st').

(** The events recorded from [st] to [st'] all satisfy [allowed]. *)
Definition traced (allowed : event -> bool) : state -> state -> Prop :=
  fun st st' =>
    exists evs, trace (snd st') = (trace (snd st) ++ evs)%list
                /\ Forall (fun e => allowed e = true) evs.

(** The surveillance flag, the camera handle and the thread are the same. *)
Definition same_camera (s s' : PoliceAISystem) : Prop :=
  surveillance_active s' = surveillance_active s
  /\ camera_cap s' = camera_cap s
  /\ detection_thread s' = detection_thread s.

Definition same_frame (s s' : PoliceAISystem) : Prop :=
  current_frame s' = current_frame s.

(** Every thread object the engine holds was started, unless starting
    threads fails. *)
Definition threads_started (s : PoliceAISystem) : Prop :=
  forall thread, detection_thread s = Some thread ->
    thread_start = Ret tt -> started thread = true.

(** An active engine holds an opened camera and a detection thread
    object, and the thread runs unless starting it failed. *)
Definition camera_ready (s : PoliceAISystem) : Prop :=
  threads_started s
  /\ (surveillance_active s = true ->
      exists cap, camera_cap s = Some cap /\ isOpened cap = true
                  /\ is_Some (detection_thread s)).

(** What [_detect_faces] may call or print (lines 127-152 and the alert
    path of lines 154-205). *)
Definition detection_event (e : event) : bool :=
  match e with
  | Call cv2_resize | Call face_locations | Call face_encodings
  | Call compare_faces | Call face_distance
  | Call (cv2_imwrite _) | Call alert_sound | Call Timer_start => true
  | Print _ => true
  | Call _ => false
  end.

Definition is_read (e : event) : bool :=
  match e with Call cap_read => true | _ => false end.

Definition is_sleep (e : event) : bool :=
  match e with Call sleep => true | _ => false end.

(** The world after one more reading of the clock. *)
Definition tick (w : World) : World :=
  mkWorld (S (ticks w)) (dirs w) (files w) (trace w).

(** Everything [_detect_faces] keeps, in one relation. *)
Definition detection_keeps (st st' : state) : Prop :=
  same_camera (fst st) (fst st')
  /\ same_frame (fst st) (fst st')
  /\ same_registry (fst st) (fst st')
  /\ traced detection_event st st'
  /\ files (snd st') = files (snd st)
  /\ dirs (snd st') = dirs (snd st).

(** The frame of the last successful read, [cur] when there is none. *)
Definition last_frame (reads : list (option image)) (cur : option image)
  : option image :=
  fold_left (fun cur rd => match rd with Some frame => Some frame | None => cur end)
            reads cur.

(** The registry entry an operation adds: the first face of the image
    with the name and details given, when the image loads and shows a
    face. *)
Definition first_face (encs : outcome (list encoding)) : option encoding :=
  match encs with
  | Ret (enc0 :: _) => Some enc0
  | _ => None
  end.

Definition registered (op : operation (image := image))
  : option (encoding * string * string) :=
  match op with
  | do_add_suspect image_path name details =>
      match fr_load_image_file image_path with
      | Ret image_ =>
          match first_face (fr_face_encodings image_ None) with
          | Some enc0 => Some (enc0, name, details)
          | None => None
          end
      | Raise _ => None
      end
  | do_add_suspect_from_array image_array name details =>
      match first_face (fr_face_encodings image_array None) with
      | Some enc0 => Some (enc0, name, details)
      | None => None
      end
  | _ => None
  end.

(** The entries an operation adds to the registry: none or one. *)
Definition added (op : operation (image := image))
  : list (encoding * string * string) :=
  match registered op with
  | Some r => [r]
  | None => []
  end.

(** The detector's own calls, and printing. *)
Definition detector_event (e : event) : bool :=
  match e with
  | Call cv2_resize | Call face_locations | Call face_encodings => true
  | Print _ => true
  | Call _ => false
  end.

(** Where [_trigger_alert] writes the frame, when it is the [n]-th
    reading of the clock that names the file. *)
Definition alert_image_path (name : string) (n : nat) : string :=
  "alerts/alert_" ++ name ++ "_" ++ strftime_Ymd_HMS (now n) ++ ".jpg".

(** The directories the constructor makes sure of (line 41). *)
Definition directories : list string := ["suspects"; "alerts"; "logs"].

(** The [makedirs] calls among the events, in order. *)
Definition made_directories (evs : list event) : list string :=
  omap (fun e => match e with Call (makedirs d) => Some d | _ => None end) evs.

End Keeping.

(** ** The interface: the handlers of [main]

    The page is the record of the widgets the handlers read and write;
    the cards of the alert list, the JPEG and base64 conversion of a
    frame and [os.path.basename] are collaborators, like the ones of the
    engine.  A handler runs on the engine, the world and the page. *)

(** [str(n)] for a length: the decimal digits. *)
Fixpoint digits (d : Decimal.uint) : string :=
  match d with
  | Decimal.Nil => ""
  | Decimal.D0 d => "0" ++ digits d
  | Decimal.D1 d => "1" ++ digits d
  | Decimal.D2 d => "2" ++ digits d
  | Decimal.D3 d => "3" ++ digits d
  | Decimal.D4 d => "4" ++ digits d
  | Decimal.D5 d => "5" ++ digits d
  | Decimal.D6 d => "6" ++ digits d
  | Decimal.D7 d => "7" ++ digits d
  | Decimal.D8 d => "8" ++ digits d
  | Decimal.D9 d => "9" ++ digits d
  end.

Definition str (n : nat) : string := digits (Nat.to_uint n).

Inductive color : Type := RED | GREEN | GREY.

(** What [page.overlay] holds: the file picker and the snack bars. *)
Inductive overlay_control : Type :=
| FilePicker
| SnackBar (message : string) (bgcolor : color).

Section Interface.

Context {image encoding datetime text card : Type}.
Context {caps : @Capabilities image encoding datetime text}.

Local Abbreviation PoliceAISystem := (@PoliceAISystem image encoding).
Local Abbreviation World := (@World text).
Local Abbreviation state := (@state image encoding text).
Local Abbreviation M := (@M image encoding text).

Class Presentation : Type := mkPresentation {
  (* lines 371-389: the Card shown for one alert; parsing the timestamp,
     scaling the confidence or a missing key can raise *)
  alert_tile : alert_data -> outcome card;
  (* lines 216-223: cvtColor, PIL JPEG encoding and base64 *)
  frame_to_base64 : image -> outcome string;
  path_basename : string -> string;
}.

Context {pres : Presentation}.

Record Page : Type := mkPage {
  surveillance_status : string * color;
  alert_status : string * color;
  suspects_count : string;
  live_feed_src_base64 : option string;  (* live_feed.src_base64 *)
  suspect_name_field : string;
  suspect_details_field : string;
  selected_image_path : string * option string;  (* .value and .data *)
  alert_log_list : list card;  (* .controls *)
  start_btn_disabled : bool;
  stop_btn_disabled : bool;
  overlay : list overlay_control;
  feed_threads : nat;  (* update_live_feed threads started *)
  page_updates : nat;  (* calls of page.update() *)
  window_destroyed : bool;
}.

Definition set_surveillance_status v (pg : Page) : Page :=
  mkPage v (alert_status pg) (suspects_count pg) (live_feed_src_base64 pg)
    (suspect_name_field pg) (suspect_details_field pg)
    (selected_image_path pg) (alert_log_list pg) (start_btn_disabled pg)
    (stop_btn_disabled pg) (overlay pg) (feed_threads pg) (page_updates pg)
    (window_destroyed pg).
Definition set_alert_status v (pg : Page) : Page :=
  mkPage (surveillance_status pg) v (suspects_count pg)
    (live_feed_src_base64 pg) (suspect_name_field pg)
    (suspect_details_field pg) (selected_image_path pg) (alert_log_list pg)
    (start_btn_disabled pg) (stop_btn_disabled pg) (overlay pg)
    (feed_threads pg) (page_updates pg) (window_destroyed pg).
Definition set_suspects_count v (pg : Page) : Page :=
  mkPage (surveillance_status pg) (alert_status pg) v
    (live_feed_src_base64 pg) (suspect_name_field pg)
    (suspect_details_field pg) (selected_image_path pg) (alert_log_list pg)
    (start_btn_disabled pg) (stop_btn_disabled pg) (overlay pg)
    (feed_threads pg) (page_updates pg) (window_destroyed pg).
Definition set_live_feed_src_base64 v (pg : Page) : Page :=
  mkPage (surveillance_status pg) (alert_status pg) (suspects_count pg) v
    (suspect_name_field pg) (suspect_details_field pg)
    (selected_image_path pg) (alert_log_list pg) (start_btn_disabled pg)
    (stop_btn_disabled pg) (overlay pg) (feed_threads pg) (page_updates pg)
    (window_destroyed pg).
Definition set_suspect_name_field v (pg : Page) : Page :=
  mkPage (surveillance_status pg) (alert_status pg) (suspects_count pg)
    (live_feed_src_base64 pg) v (suspect_details_field pg)
    (selected_image_path pg) (alert_log_list pg) (start_btn_disabled pg)
    (stop_btn_disabled pg) (overlay pg) (feed_threads pg) (page_updates pg)
    (window_destroyed pg).
Definition set_suspect_details_field v (pg : Page) : Page :=
  mkPage (surveillance_status pg) (alert_status pg) (suspects_count pg)
    (live_feed_src_base64 pg) (suspect_name_field pg) v
    (selected_image_path pg) (alert_log_list pg) (start_btn_disabled pg)
    (stop_btn_disabled pg) (overlay pg) (feed_threads pg) (page_updates pg)
    (window_destroyed pg).
Definition set_selected_image_path v (pg : Page) : Page :=
  mkPage (surveillance_status pg) (alert_status pg) (suspects_count pg)
    (live_feed_src_base64 pg) (suspect_name_field pg)
    (suspect_details_field pg) v (alert_log_list pg) (start_btn_disabled pg)
    (stop_btn_disabled pg) (overlay pg) (feed_threads pg) (page_updates pg)
    (window_destroyed pg).
Definition set_alert_log_list v (pg : Page) : Page :=
  mkPage (surveillance_status pg) (alert_status pg) (suspects_count pg)
    (live_feed_src_base64 pg) (suspect_name_field pg)
    (suspect_details_field pg) (selected_image_path pg) v
    (start_btn_disabled pg) (stop_btn_disabled pg) (overlay pg)
    (feed_threads pg) (page_updates pg) (window_destroyed pg).
Definition set_start_btn_disabled v (pg : Page) : Page :=
  mkPage (surveillance_status pg) (alert_status pg) (suspects_count pg)
    (live_feed_src_base64 pg) (suspect_name_field pg)
    (suspect_details_field pg) (selected_image_path pg) (alert_log_list pg) v
    (stop_btn_disabled pg) (overlay pg) (feed_threads pg) (page_updates pg)
    (window_destroyed pg).
Definition set_stop_btn_disabled v (pg : Page) : Page :=
  mkPage (surveillance_status pg) (alert_status pg) (suspects_count pg)
    (live_feed_src_base64 pg) (suspect_name_field pg)
    (suspect_details_field pg) (selected_image_path pg) (alert_log_list pg)
    (start_btn_disabled pg) v (overlay pg) (feed_threads pg) (page_updates pg)
    (window_destroyed pg).
Definition set_overlay v (pg : Page) : Page :=
  mkPage (surveillance_status pg) (alert_status pg) (suspects_count pg)
    (live_feed_src_base64 pg) (suspect_name_field pg)
    (suspect_details_field pg) (selected_image_path pg) (alert_log_list pg)
    (start_btn_disabled pg) (stop_btn_disabled pg) v (feed_threads pg)
    (page_updates pg) (window_destroyed pg).
Definition set_feed_threads v (pg : Page) : Page :=
  mkPage (surveillance_status pg) (alert_status pg) (suspects_count pg)
    (live_feed_src_base64 pg) (suspect_name_field pg)
    (suspect_details_field pg) (selected_image_path pg) (alert_log_list pg)
    (start_btn_disabled pg) (stop_btn_disabled pg) (overlay pg) v
    (page_updates pg) (window_destroyed pg).
Definition set_page_updates v (pg : Page) : Page :=
  mkPage (surveillance_status pg) (alert_status pg) (suspects_count pg)
    (live_feed_src_base64 pg) (suspect_name_field pg)
    (suspect_details_field pg) (selected_image_path pg) (alert_log_list pg)
    (start_btn_disabled pg) (stop_btn_disabled pg) (overlay pg)
    (feed_threads pg) v (window_destroyed pg).
Definition set_window_destroyed v (pg : Page) : Page :=
  mkPage (surveillance_status pg) (alert_status pg) (suspects_count pg)
    (live_feed_src_base64 pg) (suspect_name_field pg)
    (suspect_details_field pg) (selected_image_path pg) (alert_log_list pg)
    (start_btn_disabled pg) (stop_btn_disabled pg) (overlay pg)
    (feed_threads pg) (page_updates pg) v.

(** The page as [main] builds it. *)
Definition initial_page : Page :=
  mkPage ("Surveillance: OFF", RED) ("No Alerts", GREEN)
         "Suspects in Database: 0" None "" "" ("No image selected", None)
         [] false true [FilePicker] 0 0 false.

Definition UI (A : Type) : Type := StateExn (state * Page) A.

(** A method of the engine, called from a handler. *)
Definition engine {A} (m : M A) : UI A :=
  fun x => let (o, st') := m (fst x) in (o, (st', snd x)).
Definition get_page : UI Page := fun x => (Ret (snd x), x).
Definition modify_page (f : Page -> Page) : UI unit :=
  fun x => (Ret tt, (fst x, f (snd x))).
Definition page_update : UI unit :=
  modify_page (fun pg => set_page_updates (S (page_updates pg)) pg).

(** *** The engine's [get_current_frame_base64] *)

Definition get_current_frame_base64 : M (option string) :=
  s <- get_self ;;
  match current_frame s with
  | Some frame =>
      try_except (b <- lift (frame_to_base64 frame) ;; ret (Some b))
                 (fun e => print ("Frame conversion error: " ++ e) ;;; ret None)
  | None => ret None
  end.

(** *** The closures of [main] *)

Definition show_snack_bar (message : string) (bgcolor : color) : UI unit :=
  modify_page (fun pg => set_overlay (overlay pg ++ [SnackBar message bgcolor]) pg) ;;;
  page_update.
Definition show_success (message : string) : UI unit := show_snack_bar message GREEN.
Definition show_error (message : string) : UI unit := show_snack_bar message RED.

(** One round of the [while True] of [update_live_feed]. *)
Definition update_live_feed_round : UI unit :=
  s <- engine get_self ;;
  if surveillance_active s then
    frame_base64 <- engine get_current_frame_base64 ;;
    match frame_base64 with
    | Some b =>
        if String.eqb b "" then ret tt
        else
          modify_page (set_live_feed_src_base64 (Some b)) ;;;
          s' <- engine get_self ;;
          modify_page (set_alert_status
                         (if alert_active s'
                          then ("🚨 SUSPECT DETECTED! 🚨", RED)
                          else ("Monitoring...", GREEN))) ;;;
          page_update
    | None => ret tt
    end
  else ret tt.

(** [start_surveillance(e)], the handler of the start button. *)
Definition click_start_surveillance : UI unit :=
  started <- engine (start_surveillance 0) ;;
  (if (started : bool) then
     modify_page (set_surveillance_status ("Surveillance: ON", GREEN)) ;;;
     modify_page (set_start_btn_disabled true) ;;;
     modify_page (set_stop_btn_disabled false) ;;;
     modify_page (fun pg => set_feed_threads (S (feed_threads pg)) pg)
   else show_error "Failed to start surveillance. Check camera connection.") ;;;
  page_update.

(** [stop_surveillance(e)], the handler of the stop button. *)
Definition click_stop_surveillance : UI unit :=
  engine stop_surveillance ;;;
  modify_page (set_surveillance_status ("Surveillance: OFF", RED)) ;;;
  modify_page (set_start_btn_disabled false) ;;;
  modify_page (set_stop_btn_disabled true) ;;;
  modify_page (set_alert_status ("No Alerts", GREEN)) ;;;
  page_update.

(** [on_file_picked(e)], with the paths of [e.files]. *)
Definition on_file_picked (files_ : list string) : UI unit :=
  match files_ with
  | file_path :: _ =>
      modify_page (set_selected_image_path
                     ("Selected: " ++ path_basename file_path, Some file_path)) ;;;
      page_update
  | [] => ret tt
  end.

Definition update_suspects_count : UI unit :=
  s <- engine get_self ;;
  modify_page (set_suspects_count
                 ("Suspects in Database: " ++ str (length (known_names s)))) ;;;
  page_update.

(** [not image_path]: [None] and the empty string are both false. *)
Definition no_path (image_path : option string) : bool :=
  match image_path with
  | Some p => String.eqb p ""
  | None => true
  end.

(** [add_suspect(e)], the handler of the add button. *)
Definition click_add_suspect : UI unit :=
  pg <- get_page ;;
  let name := suspect_name_field pg in
  let details := suspect_details_field pg in
  let image_path := snd (selected_image_path pg) in
  if String.eqb name "" || no_path image_path then
    show_error "Please provide suspect name and image."
  else
    added <- engine (add_suspect (default "" image_path) name details) ;;
    (if (added : bool) then
       show_success ("Suspect '" ++ name ++ "' added successfully!") ;;;
       update_suspects_count ;;;
       modify_page (set_suspect_name_field "") ;;;
       modify_page (set_suspect_details_field "") ;;;
       modify_page (set_selected_image_path ("No image selected", None))
     else
       show_error
         "Failed to add suspect. Please ensure the image contains a clear face.") ;;;
    page_update.

Fixpoint for_each_ui {A} (xs : list A) (body : A -> UI unit) : UI unit :=
  match xs with
  | [] => ret tt
  | x :: xs' => body x ;;; for_each_ui xs' body
  end.

(** [alert_log[-10:]] *)
Definition last_ten {A} (l : list A) : list A := drop (length l - 10) l.

Definition update_alert_log : UI unit :=
  modify_page (set_alert_log_list []) ;;;
  s <- engine get_self ;;
  for_each_ui (reverse (last_ten (alert_log s))) (fun alert =>
    tile <- lift (alert_tile alert) ;;
    modify_page (fun pg => set_alert_log_list (alert_log_list pg ++ [tile]) pg)) ;;;
  page_update.

(** One round of the [while True] of [periodic_update]. *)
Definition periodic_update_round : UI unit :=
  s <- engine get_self ;;
  pg <- get_page ;;
  if bool_decide (length (alert_log_list pg) < length (alert_log s))
  then update_alert_log
  else ret tt.

(** [save_logs(e)], the handler of the save button. *)
Definition click_save_logs : UI unit :=
  try_except
    (log_file <- engine save_logs ;;
     show_success ("Logs saved to " ++ log_file))
    (fun ex => show_error ("Failed to save logs: " ++ ex)).

Definition on_window_event (data : string) : UI unit :=
  if String.eqb data "close" then
    engine stop_surveillance ;;;
    modify_page (set_window_destroyed true)
  else ret tt.

(** *** What happens to a running application

    The user types, picks files and presses buttons; the two polling
    threads of [main] make their rounds; in between the detection thread
    works through camera reads and the cooldown timer fires. *)
Inductive action : Type :=
| type_name (value : string)
| type_details (value : string)
| pick_files (files_ : list string)
| press_start
| press_stop
| press_add
| press_save
| move_slider (value : float)
| feed_round
| poll_round
| detection_reads (reads : list (option image))
| timer_fires.

Definition act (a : action) : UI unit :=
  match a with
  | type_name value => modify_page (set_suspect_name_field value)
  | type_details value => modify_page (set_suspect_details_field value)
  | pick_files files_ => on_file_picked files_
  | press_start => click_start_surveillance
  | press_stop => click_stop_surveillance
  | press_add => click_add_suspect
  | press_save => click_save_logs
  | move_slider value => engine (modify_self (set_confidence_threshold value))
  | feed_round => update_live_feed_round
  | poll_round => periodic_update_round
  | detection_reads reads => engine (_surveillance_loop reads)
  | timer_fires => engine _reset_alert
  end.

Definition use (actions : list action) (x : state * Page) : state * Page :=
  fold_left (fun x a => snd (act a x)) actions x.

(** The application when [main] has built the page. *)
Definition launched (w : World) : state * Page := (constructed w, initial_page).


End Interface.

(** A presentation for the deterministic matcher: a card is the name on
    the alert, an alert without a name cannot be drawn. *)
Module DemoUI.

Definition pres : @Presentation (list float) string :=
  {| alert_tile := fun a =>
       match a !! 1 with
       | Some (_, PyStr name) => Ret name
       | _ => Raise "KeyError: 'suspect_name'"
       end;
     frame_to_base64 := fun frame =>
       if bool_decide (frame = []) then Raise "cv2.error" else Ret "/9j/4AAQ";
     path_basename := fun p => p |}.

End DemoUI.

(** A matcher that gives up: the collaborators of [Demo], except that
    [compare_faces] raises on every call. *)
Module DemoFailing.

Definition caps : @Capabilities (list float) float nat (list alert_data) :=
  {| pygame_mixer_init := Ret tt;
     play_sound := Ret tt;
     fr_load_image_file := @fr_load_image_file _ _ _ _ Demo.caps;
     fr_face_locations := @fr_face_locations _ _ _ _ Demo.caps;
     fr_face_encodings := @fr_face_encodings _ _ _ _ Demo.caps;
     fr_compare_faces := fun _ _ => Raise "ValueError";
     fr_face_distance := @fr_face_distance _ _ _ _ Demo.caps;
     VideoCapture_new := @VideoCapture_new _ _ _ _ Demo.caps;
     thread_start := Ret tt;
     resize_quarter := fun img => Ret img;
     bgr_to_rgb := fun img => img;
     imwrite := fun _ _ => Ret true;
     now := fun n => n;
     isoformat := @isoformat _ _ _ _ Demo.caps;
     strftime_Ymd_HMS := @strftime_Ymd_HMS _ _ _ _ Demo.caps;
     json_dump := fun log => log |}.

End DemoFailing.

(** A machine that cannot start another thread: the collaborators of
    [Demo], except that [Thread.start()] raises. *)
Module DemoNoThreads.

Definition caps : @Capabilities (list float) float nat (list alert_data) :=
  {| pygame_mixer_init := Ret tt;
     play_sound := Ret tt;
     fr_load_image_file := @fr_load_image_file _ _ _ _ Demo.caps;
     fr_face_locations := @fr_face_locations _ _ _ _ Demo.caps;
     fr_face_encodings := @fr_face_encodings _ _ _ _ Demo.caps;
     fr_compare_faces := @fr_compare_faces _ _ _ _ Demo.caps;
     fr_face_distance := @fr_face_distance _ _ _ _ Demo.caps;
     VideoCapture_new := @VideoCapture_new _ _ _ _ Demo.caps;
     thread_start := Raise "RuntimeError: can't start new thread";
     resize_quarter := fun img => Ret img;
     bgr_to_rgb := fun img => img;
     imwrite := fun _ _ => Ret true;
     now := fun n => n;
     isoformat := @isoformat _ _ _ _ Demo.caps;
     strftime_Ymd_HMS := @strftime_Ymd_HMS _ _ _ _ Demo.caps;
     json_dump := fun log => log |}.

End DemoNoThreads.

(** A session at the interface of the demonstration: a suspect is
    registered through the form, surveillance is started, and the
    detection thread reads the suspect's face [alerts] times, the
    cooldown timer firing after each. *)
Module DemoSession.

Definition registration : list (@action (list float)) :=
  [type_name "Doe"; type_details "wanted"; pick_files ["suspect.jpg"]; press_add].

Definition sighting : list (@action (list float)) :=
  [detection_reads [Some [0.25%float]]; timer_fires].

Definition session (alerts : nat) : list (@action (list float)) :=
  (registration ++ [press_start] ++ concat (replicate alerts sighting))%list.

Definition after (alerts : nat)
  : @state (list float) float (list alert_data) * @Page string :=
  use (caps := Demo.caps) (pres := DemoUI.pres) (session alerts)
      (launched (caps := Demo.caps) Demo.empty_world).

End DemoSession.

(** * Properties *)

(** ** [np.argmin] and indexing *)

Lemma argmin_scan_bound (ip : list float) : forall min_ind mp i,
  min_ind < i -> argmin_scan min_ind mp i ip < i + length ip.
Proof.
  induction ip as [| x ip IH]; intros min_ind mp i Hlt; simpl; [lia |].
  destruct (negb (mp <=? x)%float).
  - destruct (is_nan x); [lia |].
    specialize (IH i x (S i)). lia.
  - specialize (IH min_ind mp (S i)). lia.
Qed.

(** [np.argmin] answers with a valid position of its argument. *)
Lemma argmin_bound (a : list float) (i : nat) :
  argmin a = Ret i -> i < length a.
Proof.
  destruct a as [| mp ip]; simpl; [discriminate |].
  intros [= <-]. destruct (is_nan mp); [lia |].
  pose proof (argmin_scan_bound ip 0 mp 1). lia.
Qed.

Lemma index_Ret {A : Type} (l : list A) (i : nat) (x : A) :
  index l i = Ret x <-> l !! i = Some x.
Proof. unfold index. destruct (l !! i); split; congruence. Qed.

(** ** The order of binary64 values

    [x <= y] excludes [y < x]; both are false when a NaN is involved.
    Away from NaN, [<=] is a total preorder. *)

Ltac pos_order :=
  repeat match goal with
    | H : PosDef.Pos.compare_cont Eq ?p ?q = Eq |- _ =>
        apply (Pos.compare_eq p q) in H
    | H : PosDef.Pos.compare_cont Eq ?p ?q = Lt |- _ =>
        apply (proj1 (Pos.compare_lt_iff p q)) in H
    | H : PosDef.Pos.compare_cont Eq ?p ?q = Gt |- _ =>
        apply (proj1 (Pos.compare_gt_iff p q)) in H
    end.

Lemma SFleb_not_SFltb (x y : spec_float) :
  SFleb x y = true -> SFltb y x = false.
Proof.
  unfold SFleb, SFltb.
  destruct x as [sx | sx | | sx mx ex], y as [sy | sy | | sy my ey]; simpl;
    try destruct sx; try destruct sy; simpl; try congruence.
  all: destruct (Z.compare_spec ex ey), (Z.compare_spec ey ex);
    simpl; try congruence; try lia;
    destruct (PosDef.Pos.compare_cont Eq mx my) eqn:Exy,
             (PosDef.Pos.compare_cont Eq my mx) eqn:Eyx;
    cbn [CompOpp]; try congruence; pos_order; lia.
Qed.

Lemma SFleb_trans (x y z : spec_float) :
  SFleb x y = true -> SFleb y z = true -> SFleb x z = true.
Proof.
  unfold SFleb.
  destruct x as [sx | sx | | sx mx ex], y as [sy | sy | | sy my ey],
           z as [sz | sz | | sz mz ez]; simpl;
    try destruct sx; try destruct sy; try destruct sz; simpl;
    try congruence.
  all: destruct (Z.compare_spec ex ey), (Z.compare_spec ey ez),
                (Z.compare_spec ex ez);
    simpl; try congruence; try lia.
  all: destruct (PosDef.Pos.compare_cont Eq mx my) eqn:Exy,
                (PosDef.Pos.compare_cont Eq my mz) eqn:Eyz,
                (PosDef.Pos.compare_cont Eq mx mz) eqn:Exz;
    cbn [CompOpp]; try congruence; pos_order; lia.
Qed.

Lemma SFleb_total (x y : spec_float) :
  SFeqb x x = true -> SFeqb y y = true -> SFleb x y = false -> SFleb y x = true.
Proof.
  unfold SFleb, SFeqb.
  destruct x as [sx | sx | | sx mx ex], y as [sy | sy | | sy my ey]; simpl;
    try destruct sx; try destruct sy; simpl; try congruence.
  all: intros _ _;
    destruct (Z.compare_spec ex ey), (Z.compare_spec ey ex);
    simpl; try congruence; try lia;
    destruct (PosDef.Pos.compare_cont Eq mx my) eqn:Exy,
             (PosDef.Pos.compare_cont Eq my mx) eqn:Eyx;
    cbn [CompOpp]; try congruence; pos_order; lia.
Qed.

Lemma leb_not_ltb (x y : float) :
  (x <=? y)%float = true -> (y <? x)%float = false.
Proof. rewrite leb_spec, ltb_spec. apply SFleb_not_SFltb. Qed.

Lemma leb_trans (x y z : float) :
  (x <=? y)%float = true -> (y <=? z)%float = true -> (x <=? z)%float = true.
Proof. rewrite !leb_spec. apply SFleb_trans. Qed.

Lemma leb_total (x y : float) :
  is_nan x = false -> is_nan y = false ->
  (x <=? y)%float = false -> (y <=? x)%float = true.
Proof.
  unfold is_nan. intros Hx Hy.
  apply negb_false_iff in Hx, Hy. rewrite FloatAxioms.eqb_spec in Hx, Hy.
  rewrite !leb_spec. now apply SFleb_total.
Qed.

Lemma leb_refl (x : float) : is_nan x = false -> (x <=? x)%float = true.
Proof.
  unfold is_nan. intros Hx.
  apply negb_false_iff in Hx. rewrite FloatAxioms.eqb_spec in Hx. rewrite leb_spec.
  unfold SFleb, SFeqb in *. destruct (SFcompare _ _) as [[] |]; congruence.
Qed.

(** ** [np.argmin] finds a minimum

    On distances without a NaN the index [np.argmin] answers with holds
    a distance that is [<=] every distance of the array. *)

Lemma argmin_scan_minimal (ip : list float) : forall min_ind mp i,
  is_nan mp = false ->
  Forall (fun x => is_nan x = false) ip ->
  exists d,
    (argmin_scan min_ind mp i ip = min_ind /\ d = mp
     \/ exists k, argmin_scan min_ind mp i ip = i + k /\ ip !! k = Some d)
    /\ (d <=? mp)%float = true
    /\ Forall (fun x => (d <=? x)%float = true) ip.
Proof.
  induction ip as [| x ip IH]; intros min_ind mp i Hmp Hip; simpl.
  - exists mp. split; [now left |]. split; [now apply leb_refl | constructor].
  - apply Forall_cons in Hip as [Hx Hip].
    destruct (mp <=? x)%float eqn:Hle; simpl.
    + destruct (IH min_ind mp (S i) Hmp Hip) as (d & Hpos & Hd & Hall).
      exists d. split; [| split].
      * destruct Hpos as [Hpos | (k & Hk & Hlook)]; [now left |].
        right. exists (S k). split; [lia | exact Hlook].
      * exact Hd.
      * constructor; [eapply leb_trans; eassumption | exact Hall].
    + rewrite Hx.
      destruct (IH i x (S i) Hx Hip) as (d & Hpos & Hd & Hall).
      exists d. split; [| split].
      * right. destruct Hpos as [[Hr ->] | (k & Hk & Hlook)].
        -- exists 0. split; [lia | reflexivity].
        -- exists (S k). split; [lia | exact Hlook].
      * eapply leb_trans; [exact Hd |]. now apply leb_total.
      * constructor; assumption.
Qed.

Lemma argmin_minimal (a : list float) (i : nat) :
  Forall (fun x => is_nan x = false) a ->
  argmin a = Ret i ->
  exists d, a !! i = Some d /\ Forall (fun x => (d <=? x)%float = true) a.
Proof.
  destruct a as [| mp ip]; simpl; [discriminate |].
  intros Hall Hmin. apply Forall_cons in Hall as [Hmp Hip].
  rewrite Hmp in Hmin. injection Hmin as <-.
  destruct (argmin_scan_minimal ip 0 mp 1 Hmp Hip) as (d & Hpos & Hd & Hall).
  exists d. split.
  - destruct Hpos as [[-> ->] | (k & -> & Hlook)]; [reflexivity | exact Hlook].
  - constructor; assumption.
Qed.

(** ** The engine *)

Section Properties.

Context {image encoding datetime text : Type}.
Context {caps : @Capabilities image encoding datetime text}.

Local Abbreviation PoliceAISystem := (@PoliceAISystem image encoding).
Local Abbreviation World := (@World text).
Local Abbreviation state := (@state image encoding text).
Local Abbreviation M := (@M image encoding text).

(** Unfolding of the monad's plumbing, shared by the proofs below. *)
Ltac unfold_monad :=
  unfold call, print, emit, lift, get_self, get_world, modify_self,
    modify_world, datetime_now, try_except, bind, ret, raise in *.

Ltac no_such_event :=
  rewrite ?not_elem_of_cons;
  repeat split; solve [discriminate | apply not_elem_of_nil].

(** *** start_surveillance *)

(** C10: [start_surveillance] on an engine that is already active
    returns [False] and leaves the engine and the world as they were:
    no camera is opened, no thread is started, nothing is printed. *)
Theorem start_surveillance_already_active (camera_index : Z) (st : state) :
  surveillance_active (fst st) = true ->
  start_surveillance camera_index st = (Ret false, st).
Proof.
  intros Hactive. unfold start_surveillance. unfold_monad. simpl.
  now rewrite Hactive.
Qed.

(** C8: [start_surveillance] on a camera that cannot be opened returns
    [False], [surveillance_active] stays false, and no surveillance
    thread is created or started; registry, alert flag and alert log
    are untouched. *)
Theorem start_surveillance_unopenable (camera_index : Z) (st : state) :
  surveillance_active (fst st) = false ->
  unopenable camera_index ->
  exists st' evs,
    start_surveillance camera_index st = (Ret false, st')
    /\ surveillance_active (fst st') = false
    /\ detection_thread (fst st') = detection_thread (fst st)
    /\ new_events st st' evs /\ (Call Thread_start ∉ evs)
    /\ known_faces (fst st') = known_faces (fst st)
    /\ alert_active (fst st') = alert_active (fst st)
    /\ alert_log (fst st') = alert_log (fst st).
Proof.
  intros Hidle Hcam. unfold unopenable in Hcam.
  unfold start_surveillance, new_events. unfold_monad. simpl.
  rewrite Hidle.
  destruct (VideoCapture_new camera_index) as [cap | exn]; simpl.
  - rewrite Hcam. simpl.
    eexists _, [Call (cv2_VideoCapture camera_index)].
    repeat split; try reflexivity; try assumption.
    no_such_event.
  - eexists _, [Call (cv2_VideoCapture camera_index); Print _].
    repeat split; try reflexivity; try assumption.
    + simpl. now rewrite <- app_assoc.
    + no_such_event.
Qed.

(** *** Registration *)

(** C5: a registration whose image yields zero face encodings returns
    [False] and leaves all three registry lists (and every other
    attribute of the engine) exactly as they were, through
    [add_suspect] and through [add_suspect_from_array]. *)
Theorem add_suspect_no_face (name details : string) (st : state) :
  (forall image_path image_,
      fr_load_image_file image_path = Ret image_ ->
      fr_face_encodings image_ None = Ret [] ->
      exists st',
        add_suspect image_path name details st = (Ret false, st')
        /\ fst st' = fst st)
  /\ (forall image_array,
      fr_face_encodings image_array None = Ret [] ->
      exists st',
        add_suspect_from_array image_array name details st = (Ret false, st')
        /\ fst st' = fst st).
Proof.
  split.
  - intros image_path image_ Hload Henc.
    unfold add_suspect. unfold_monad. simpl.
    rewrite Hload. simpl. rewrite Henc. simpl.
    eexists. split; reflexivity.
  - intros image_array Henc.
    unfold add_suspect_from_array. unfold_monad. simpl.
    rewrite Henc. simpl.
    eexists. split; reflexivity.
Qed.

(** *** The alert debouncer *)

Lemma _trigger_alert_active name details confidence frame (st : state) :
  alert_active (fst st) = true ->
  _trigger_alert name details confidence frame st = (Ret tt, st).
Proof.
  intros Hactive. unfold _trigger_alert. unfold_monad. simpl.
  now rewrite Hactive.
Qed.

Lemma _trigger_alert_idle name details confidence frame (st : state) :
  alert_active (fst st) = false ->
  exists o st',
    _trigger_alert name details confidence frame st = (o, st')
    /\ alert_active (fst st') = true
    /\ alert_log (fst st') =
         (alert_log (fst st) ++
          [alert_record (isoformat (now (ticks (snd st))))
                        name details confidence])%list
    /\ known_faces (fst st') = known_faces (fst st)
    /\ known_names (fst st') = known_names (fst st)
    /\ known_details (fst st') = known_details (fst st)
    /\ confidence_threshold (fst st') = confidence_threshold (fst st).
Proof.
  intros Hidle. unfold _trigger_alert, _play_alert_sound. unfold_monad.
  simpl. rewrite Hidle.
  destruct (imwrite _ frame) as [ok | exn]; simpl.
  - destruct (play_sound) as [[] | exn]; simpl;
      eexists _, _; repeat split; reflexivity.
  - eexists _, _; repeat split; reflexivity.
Qed.

Lemma debounce_step_spec (i : debounce_input) (st : state) :
  exists st' new,
    debounce_step i st = (Ret tt, st')
    /\ alert_log (fst st') = (alert_log (fst st) ++ new)%list
    /\ length new = idle_to_active (alert_active (fst st)) [i]
    /\ alert_active (fst st') =
         match i with accepted_match _ _ _ _ => true | cooldown_expiry => false end.
Proof.
  destruct i as [name details confidence frame | ]; simpl.
  - destruct (alert_active (fst st)) eqn:Hflag.
    + exists st, []. unfold try_except.
      rewrite _trigger_alert_active by assumption.
      rewrite app_nil_r. auto.
    + destruct (_trigger_alert_idle name details confidence frame st Hflag)
        as (o & st1 & Hrun & Hact & Hlog & _).
      unfold try_except. rewrite Hrun.
      destruct o as [[] | exn].
      * exists st1, [alert_record (isoformat (now (ticks (snd st))))
                                  name details confidence].
        auto.
      * eexists _, [alert_record (isoformat (now (ticks (snd st))))
                                 name details confidence].
        unfold_monad. simpl. auto.
  - exists (set_alert_active false (fst st), snd st), [].
    unfold _reset_alert. unfold_monad. simpl.
    rewrite app_nil_r. auto.
Qed.

Lemma debounce_run_spec (ins : list debounce_input) : forall st : state,
  exists st' new,
    for_each ins debounce_step st = (Ret tt, st')
    /\ alert_log (fst st') = (alert_log (fst st) ++ new)%list
    /\ length new = idle_to_active (alert_active (fst st)) ins.
Proof.
  induction ins as [| i ins IH]; intros st.
  - exists st, []. simpl. rewrite app_nil_r. auto.
  - destruct (debounce_step_spec i st) as (st1 & new1 & Hstep & Hlog1 & Hlen1 & Hact1).
    destruct (IH st1) as (st2 & new2 & Hrun & Hlog2 & Hlen2).
    exists st2, (new1 ++ new2)%list.
    simpl. unfold bind. rewrite Hstep. split; [exact Hrun |].
    split.
    + rewrite Hlog2, Hlog1. now rewrite app_assoc.
    + rewrite length_app, Hlen1, Hlen2, Hact1.
      destruct i; simpl; lia.
Qed.

Lemma debounce_run_active (ins : list debounce_input) (st : state) :
  alert_active (fst st) = true ->
  Forall (fun i => i <> cooldown_expiry) ins ->
  for_each ins debounce_step st = (Ret tt, st).
Proof.
  intros Hactive Hins. induction Hins as [| i ins Hi _ IH]; [reflexivity |].
  destruct i as [name details confidence frame | ]; [| congruence].
  simpl. unfold bind, try_except.
  rewrite _trigger_alert_active by assumption. exact IH.
Qed.

(** C2: while [alert_active] is true, an accepted match changes nothing
    at all (no alert record, no image written, no sound, no timer), and
    so does any run of accepted matches; over any sequence of accepted
    matches and cooldown expiries the alert log grows by exactly one
    record per Idle-to-Active transition. *)
Theorem debounce_one_alert_per_transition (st : state) :
  (forall name details confidence frame,
      alert_active (fst st) = true ->
      _trigger_alert name details confidence frame st = (Ret tt, st))
  /\ (forall ins,
      alert_active (fst st) = true ->
      Forall (fun i => i <> cooldown_expiry) ins ->
      for_each ins debounce_step st = (Ret tt, st))
  /\ (forall ins,
      exists st' new,
        for_each ins debounce_step st = (Ret tt, st')
        /\ alert_log (fst st') = (alert_log (fst st) ++ new)%list
        /\ length new = idle_to_active (alert_active (fst st)) ins).
Proof.
  split; [| split].
  - intros. now apply _trigger_alert_active.
  - intros. now apply debounce_run_active.
  - intros. apply debounce_run_spec.
Qed.

(** *** The surveillance loop on an empty registry *)

(** C4: with an empty registry the surveillance loop, whatever the
    camera delivers, only reads and sleeps: no detection or matching
    capability is invoked, nothing is written or played or printed,
    the alert flag and the alert log stay as they were, and the
    registry stays empty. *)
Theorem surveillance_loop_empty_registry (reads : list (option image)) :
  forall st : state,
    known_faces (fst st) = [] ->
    exists st' evs,
      _surveillance_loop reads st = (Ret tt, st')
      /\ new_events st st' evs /\ Forall loop_only evs
      /\ known_faces (fst st') = []
      /\ alert_active (fst st') = alert_active (fst st)
      /\ alert_log (fst st') = alert_log (fst st).
Proof.
  unfold new_events.
  induction reads as [| rd reads IH]; intros [s w] Hempty; simpl in *.
  - exists (s, w), []. rewrite app_nil_r. repeat split; auto.
  - unfold_monad. simpl.
    destruct (surveillance_active s && bool_decide (is_Some (camera_cap s))).
    2:{ exists (s, w), []. rewrite app_nil_r. repeat split; auto. }
    destruct rd as [frame |].
    + simpl. rewrite Hempty. simpl.
      edestruct (IH (set_current_frame (Some frame) s,
                     log_event (Call sleep) (log_event (Call cap_read) w)))
        as (st' & evs & Hrun & Hevs & Hall & Hreg & Hact & Hlog);
        [ exact Hempty |].
      exists st', (Call cap_read :: Call sleep :: evs).
      split; [exact Hrun |].
      split; [ rewrite Hevs; simpl; now rewrite <- !app_assoc |].
      split; [ constructor; [now left |]; constructor; [now right | exact Hall] |].
      auto.
    + edestruct (IH (s, log_event (Call cap_read) w))
        as (st' & evs & Hrun & Hevs & Hall & Hreg & Hact & Hlog);
        [ exact Hempty |].
      exists st', (Call cap_read :: evs).
      split; [exact Hrun |].
      split; [ rewrite Hevs; simpl; now rewrite <- !app_assoc |].
      split; [ constructor; [now left | exact Hall] |].
      auto.
Qed.

(** *** The match decision *)

Lemma is_suspect_value matches face_distances i threshold (m : bool) (d : float) :
  matches !! i = Some m ->
  face_distances !! i = Some d ->
  is_suspect matches face_distances i threshold = Ret (m && (d <? threshold)%float).
Proof.
  intros Hm Hd. unfold is_suspect, index. rewrite Hm, Hd.
  now destruct m.
Qed.

Lemma match_face_decided face_encoding frame s w matches face_distances i m d :
  fr_compare_faces (known_faces s) face_encoding = Ret matches ->
  fr_face_distance (known_faces s) face_encoding = Ret face_distances ->
  argmin face_distances = Ret i ->
  matches !! i = Some m ->
  face_distances !! i = Some d ->
  match_face face_encoding frame (s, w) =
    if m && (d <? confidence_threshold s)%float then
      (suspect_name <- lift (index (known_names s) i) ;;
       suspect_details <- lift (index (known_details s) i) ;;
       _trigger_alert suspect_name suspect_details (1 - d)%float frame)
        (s, after_matching w)
    else (Ret tt, (s, after_matching w)).
Proof.
  intros Hcmp Hdist Hmin Hm Hd.
  unfold match_face. unfold_monad. simpl.
  rewrite Hcmp. simpl. rewrite Hdist. simpl. rewrite Hmin.
  rewrite (is_suspect_value _ _ _ _ m d Hm Hd).
  destruct (m && (d <? confidence_threshold s)%float); [| reflexivity].
  unfold after_matching.
  destruct (index (known_names s) i); [| reflexivity].
  destruct (index (known_details s) i); [| reflexivity].
  unfold index. now rewrite Hd.
Qed.

(** C1 (as the code has it): for a detected face whose best registry
    entry is [i], the match is accepted exactly when [compare_faces]
    reports entry [i] as a match and the distance to it is strictly
    below [confidence_threshold]; on acceptance the alert path is
    entered with that entry's name and details, otherwise the face
    leaves the engine untouched.  Entry [i] holds a minimal distance
    whenever no distance is a NaN. *)
Theorem detection_accepts_iff face_encoding frame s w matches face_distances i m d :
  fr_compare_faces (known_faces s) face_encoding = Ret matches ->
  fr_face_distance (known_faces s) face_encoding = Ret face_distances ->
  argmin face_distances = Ret i ->
  matches !! i = Some m ->
  face_distances !! i = Some d ->
  (is_suspect matches face_distances i (confidence_threshold s) = Ret true
   <-> m = true /\ (d <? confidence_threshold s)%float = true)
  /\ match_face face_encoding frame (s, w) =
       (if m && (d <? confidence_threshold s)%float then
         (suspect_name <- lift (index (known_names s) i) ;;
          suspect_details <- lift (index (known_details s) i) ;;
          _trigger_alert suspect_name suspect_details (1 - d)%float frame)
           (s, after_matching w)
       else (Ret tt, (s, after_matching w)))
  /\ (Forall (fun x => is_nan x = false) face_distances ->
      Forall (fun x => (d <=? x)%float = true) face_distances).
Proof.
  intros Hcmp Hdist Hmin Hm Hd. split; [| split].
  - rewrite (is_suspect_value _ _ _ _ m d Hm Hd).
    rewrite <- andb_true_iff. split; congruence.
  - now apply match_face_decided with (matches := matches)
                                     (face_distances := face_distances).
  - intros Hnan.
    destruct (argmin_minimal face_distances i Hnan Hmin) as (d' & Hlook & Hall).
    rewrite Hd in Hlook. injection Hlook as <-. exact Hall.
Qed.

(** C3: a best-match distance [d] with [t1 <= d < t2] that is accepted
    under threshold [t2] is rejected under threshold [t1], everything
    else being the same: the decision is false and processing the face
    under [t1] leaves the engine as it was. *)
Theorem acceptance_monotone_in_threshold
    face_encoding frame s w matches face_distances i d (t1 t2 : float) :
  fr_compare_faces (known_faces s) face_encoding = Ret matches ->
  fr_face_distance (known_faces s) face_encoding = Ret face_distances ->
  argmin face_distances = Ret i ->
  face_distances !! i = Some d ->
  (t1 <? t2)%float = true ->
  (t1 <=? d)%float = true ->
  (d <? t2)%float = true ->
  is_suspect matches face_distances i t2 = Ret true ->
  is_suspect matches face_distances i t1 = Ret false
  /\ match_face face_encoding frame (set_confidence_threshold t1 s, w) =
       (Ret tt, (set_confidence_threshold t1 s, after_matching w)).
Proof.
  intros Hcmp Hdist Hmin Hd _ Hle _ Hacc.
  apply leb_not_ltb in Hle.
  assert (Hm : matches !! i = Some true).
  { unfold is_suspect, index in Hacc.
    destruct (matches !! i) as [[] |]; congruence. }
  split.
  - rewrite (is_suspect_value _ _ _ _ true d Hm Hd). simpl. now rewrite Hle.
  - rewrite (match_face_decided face_encoding frame _ w matches face_distances
               i true d); try assumption.
    simpl. now rewrite Hle.
Qed.

(** *** What an alert record holds *)

Lemma same_registry_refl (s : PoliceAISystem) : same_registry s s.
Proof. now repeat split. Qed.

Lemma same_registry_trans (s1 s2 s3 : PoliceAISystem) :
  same_registry s1 s2 -> same_registry s2 s3 -> same_registry s1 s3.
Proof. unfold same_registry. intuition congruence. Qed.

Lemma debounced_refl (s : PoliceAISystem) : debounced s s [].
Proof.
  unfold debounced. rewrite app_nil_r. repeat split; auto.
  intros [H | H]; [exact H | congruence].
Qed.

Lemma debounced_trans (s1 s2 s3 : PoliceAISystem) new1 new2 :
  debounced s1 s2 new1 -> debounced s2 s3 new2 ->
  debounced s1 s3 (new1 ++ new2).
Proof.
  intros (Hlog1 & Hlen1 & Hact1 & Hnext1) (Hlog2 & Hlen2 & Hact2 & Hnext2).
  repeat split.
  - rewrite Hlog2, Hlog1. now rewrite app_assoc.
  - destruct new1 as [| a new1]; [exact Hlen2 |].
    rewrite Hact2; [now rewrite app_nil_r |].
    apply Hnext1. now right.
  - intros Hactive. rewrite (Hact1 Hactive). simpl.
    apply Hact2, Hnext1. now left.
  - intros [Hactive | Hnew].
    + apply Hnext2. left. apply Hnext1. now left.
    + destruct new1 as [| a new1].
      * apply Hnext2. now right.
      * apply Hnext2. left. apply Hnext1. now right.
Qed.

Lemma accepted_alert_same face_encoding s s' a :
  same_registry s s' -> accepted_alert s' face_encoding a ->
  accepted_alert s face_encoding a.
Proof.
  intros (Hf & Hn & Hd & Ht). unfold accepted_alert. now rewrite Hf, Hn, Hd, Ht.
Qed.

Lemma frame_alert_same frame s s' a :
  same_registry s s' -> frame_alert s' frame a -> frame_alert s frame a.
Proof.
  intros Hreg (faces & loc & face_encoding & Hfaces & Hin & Ha).
  exists faces, loc, face_encoding.
  split; [exact Hfaces |]. split; [exact Hin |].
  eapply accepted_alert_same; eassumption.
Qed.

Lemma reads_alert_same reads s s' a :
  same_registry s s' -> reads_alert s' reads a -> reads_alert s reads a.
Proof.
  intros Hreg (frame & Hin & Ha). exists frame.
  split; [exact Hin |]. eapply frame_alert_same; eassumption.
Qed.

Lemma registry_alert_same s s' a :
  same_registry s s' -> registry_alert s' a -> registry_alert s a.
Proof.
  intros Hreg (face_encoding & Ha). exists face_encoding.
  eapply accepted_alert_same; eassumption.
Qed.

Lemma _trigger_alert_spec name details confidence frame (st : state) :
  exists o st' new,
    _trigger_alert name details confidence frame st = (o, st')
    /\ same_registry (fst st) (fst st')
    /\ debounced (fst st) (fst st') new
    /\ Forall (fun a => exists timestamp,
                   a = alert_record timestamp name details confidence) new.
Proof.
  destruct (alert_active (fst st)) eqn:Hflag.
  - exists (Ret tt), st, [].
    rewrite _trigger_alert_active by assumption.
    split; [reflexivity |].
    split; [apply same_registry_refl |].
    split; [apply debounced_refl | constructor].
  - destruct (_trigger_alert_idle name details confidence frame st Hflag)
      as (o & st' & Hrun & Hact & Hlog & Hf & Hn & Hd & Ht).
    exists o, st', [alert_record (isoformat (now (ticks (snd st))))
                                 name details confidence].
    split; [exact Hrun |].
    split; [now repeat split |].
    split.
    + repeat split; auto. congruence.
    + constructor; [eauto | constructor].
Qed.

Lemma match_face_spec face_encoding frame (st : state) :
  exists o st' new,
    match_face face_encoding frame st = (o, st')
    /\ same_registry (fst st) (fst st')
    /\ debounced (fst st) (fst st') new
    /\ Forall (accepted_alert (fst st) face_encoding) new.
Proof.
  destruct st as [s w].
  assert (Hquiet : forall (o : outcome unit) w',
    exists o' (st' : state) new,
      (o, (s, w')) = (o', st')
      /\ same_registry s (fst st') /\ debounced s (fst st') new
      /\ Forall (accepted_alert s face_encoding) new).
  { intros o w'. exists o, (s, w'), [].
    split; [reflexivity |].
    split; [apply same_registry_refl |].
    split; [apply debounced_refl | constructor]. }
  unfold match_face. unfold_monad. simpl.
  destruct (fr_compare_faces (known_faces s) face_encoding)
    as [matches | exn] eqn:Hcmp; simpl; [| apply Hquiet].
  destruct (fr_face_distance (known_faces s) face_encoding)
    as [face_distances | exn] eqn:Hdist; simpl; [| apply Hquiet].
  destruct (argmin face_distances) as [i | exn] eqn:Hmin; [| apply Hquiet].
  destruct (is_suspect matches face_distances i (confidence_threshold s))
    as [[] | exn] eqn:Hacc; [| apply Hquiet | apply Hquiet].
  destruct (index (known_names s) i) as [suspect_name | exn] eqn:Hname;
    [| apply Hquiet].
  destruct (index (known_details s) i) as [suspect_details | exn] eqn:Hdetails;
    [| apply Hquiet].
  destruct (index face_distances i) as [d | exn] eqn:Hd; [| apply Hquiet].
  apply index_Ret in Hname, Hdetails, Hd.
  match goal with
  | |- context [_trigger_alert ?n ?dt ?c ?f ?st0] =>
      destruct (_trigger_alert_spec n dt c f st0)
        as (o & st' & new & Hrun & Hreg & Hdeb & Hall)
  end.
  exists o, st', new. simpl in *.
  split; [exact Hrun |].
  split; [exact Hreg |].
  split; [exact Hdeb |].
  eapply Forall_impl; [exact Hall |].
  intros a [timestamp ->].
  exists matches, face_distances, i, d, suspect_name, suspect_details, timestamp.
  repeat split; assumption.
Qed.

(** *** Computations that only append alerts *)

Lemma alerts_of_weaken (Q Q' : PoliceAISystem -> alert_data -> Prop) {A} (m : M A) :
  (forall s a, Q s a -> Q' s a) -> alerts_of Q m -> alerts_of Q' m.
Proof.
  intros Himp Hm st.
  destruct (Hm st) as (o & st' & new & Hrun & Hreg & Hdeb & Hall).
  exists o, st', new. repeat split; try assumption; try apply Hreg; try apply Hdeb.
  eapply Forall_impl; [exact Hall | apply Himp].
Qed.

Section AlertsOf.

Variable Q : PoliceAISystem -> alert_data -> Prop.
Hypothesis Q_same : forall s s' a, same_registry s s' -> Q s' a -> Q s a.

Lemma alerts_of_quiet {A} (m : M A) :
  (forall st, exists o w', m st = (o, (fst st, w'))) -> alerts_of Q m.
Proof.
  intros Hm st. destruct (Hm st) as (o & w' & ->).
  exists o, (fst st, w'), [].
  split; [reflexivity |].
  split; [apply same_registry_refl |].
  split; [apply debounced_refl | constructor].
Qed.

Lemma alerts_of_ret {A} (a : A) : alerts_of Q (ret a : M A).
Proof. apply alerts_of_quiet. intros [s w]. now exists (Ret a), w. Qed.

Lemma alerts_of_emit e : alerts_of Q (emit e : M unit).
Proof. apply alerts_of_quiet. intros [s w]. now eexists _, _. Qed.

Lemma alerts_of_get_self : alerts_of Q (get_self : M PoliceAISystem).
Proof. apply alerts_of_quiet. intros [s w]. now eexists _, _. Qed.

Lemma alerts_of_bind {A B} (m : M A) (k : A -> M B) :
  alerts_of Q m -> (forall a, alerts_of Q (k a)) -> alerts_of Q (bind m k).
Proof.
  intros Hm Hk st. unfold bind.
  destruct (Hm st) as (o & st1 & new1 & -> & Hreg1 & Hdeb1 & Hall1).
  destruct o as [a | exn].
  - destruct (Hk a st1) as (o & st2 & new2 & -> & Hreg2 & Hdeb2 & Hall2).
    exists o, st2, (new1 ++ new2)%list.
    split; [reflexivity |].
    split; [eapply same_registry_trans; eassumption |].
    split; [eapply debounced_trans; eassumption |].
    apply Forall_app. split; [exact Hall1 |].
    eapply Forall_impl; [exact Hall2 |].
    intros a0. now apply Q_same.
  - exists (Raise exn), st1, new1. auto.
Qed.

(** After a call the continuation runs on what the collaborator answered. *)
Lemma alerts_of_call_bind {A B} c (answer : outcome A) (k : A -> M B) :
  (forall a, answer = Ret a -> alerts_of Q (k a)) ->
  alerts_of Q (bind (call c answer) k).
Proof.
  intros Hk [s w]. unfold call. unfold_monad. simpl.
  destruct answer as [a | exn].
  - destruct (Hk a eq_refl (s, log_event (Call c) w))
      as (o & st2 & new & -> & Hreg & Hdeb & Hall).
    exists o, st2, new. auto.
  - exists (Raise exn), (s, log_event (Call c) w), [].
    split; [reflexivity |].
    split; [apply same_registry_refl |].
    split; [apply debounced_refl | constructor].
Qed.

Lemma alerts_of_try_except {A} (body : M A) (handler : string -> M A) :
  alerts_of Q body -> (forall e, alerts_of Q (handler e)) ->
  alerts_of Q (try_except body handler).
Proof.
  intros Hm Hk st. unfold try_except.
  destruct (Hm st) as (o & st1 & new1 & -> & Hreg1 & Hdeb1 & Hall1).
  destruct o as [a | exn].
  - exists (Ret a), st1, new1. auto.
  - destruct (Hk exn st1) as (o & st2 & new2 & -> & Hreg2 & Hdeb2 & Hall2).
    exists o, st2, (new1 ++ new2)%list.
    split; [reflexivity |].
    split; [eapply same_registry_trans; eassumption |].
    split; [eapply debounced_trans; eassumption |].
    apply Forall_app. split; [exact Hall1 |].
    eapply Forall_impl; [exact Hall2 |].
    intros a0. now apply Q_same.
Qed.

Lemma alerts_of_for_each {A} (xs : list A) (body : A -> M unit) :
  (forall x, x ∈ xs -> alerts_of Q (body x)) -> alerts_of Q (for_each xs body).
Proof.
  induction xs as [| x xs IH]; intros Hbody; simpl.
  - apply alerts_of_ret.
  - apply alerts_of_bind; [apply Hbody; now left |].
    intros _. apply IH. intros y Hy. apply Hbody. now right.
Qed.

Lemma alerts_of_set_current_frame v :
  alerts_of Q (modify_self (set_current_frame v) : M unit).
Proof.
  intros [s w]. exists (Ret tt), (set_current_frame v s, w), [].
  split; [reflexivity |].
  split; [now repeat split |].
  split; [| constructor].
  unfold debounced. simpl. rewrite app_nil_r. repeat split; auto.
  intros [H | H]; [exact H | congruence].
Qed.


End AlertsOf.

Lemma alerts_of_match_face face_encoding frame :
  alerts_of (fun s => accepted_alert s face_encoding) (match_face face_encoding frame).
Proof. intros st. apply match_face_spec. Qed.

Lemma alerts_of_faces frame faces :
  (forall face, face ∈ faces ->
     exists all, detected_faces frame = Ret all /\ face ∈ all) ->
  alerts_of (fun s => frame_alert s frame)
            (for_each faces (fun '(_, face_encoding) => match_face face_encoding frame)).
Proof.
  intros Hfaces.
  apply alerts_of_for_each; [apply frame_alert_same |].
  intros [loc face_encoding] Hin.
  eapply alerts_of_weaken; [| apply alerts_of_match_face].
  intros s a Ha. destruct (Hfaces _ Hin) as (all & Hall & Hin').
  now exists all, loc, face_encoding.
Qed.

Lemma alerts_of__detect_faces frame :
  alerts_of (fun s => frame_alert s frame) (_detect_faces frame).
Proof.
  unfold _detect_faces.
  apply alerts_of_try_except;
    [apply frame_alert_same | | intros e; apply alerts_of_emit].
  apply alerts_of_call_bind; intros small_frame Hsmall.
  apply alerts_of_call_bind; intros face_locations_ Hlocs.
  apply alerts_of_call_bind; intros face_encodings_ Hencs.
  apply alerts_of_faces. intros face Hin.
  exists (zip face_locations_ face_encodings_). split; [| exact Hin].
  unfold detected_faces. now rewrite Hsmall, Hlocs, Hencs.
Qed.

Lemma alerts_of__surveillance_loop reads :
  alerts_of (fun s => reads_alert s reads) (_surveillance_loop reads).
Proof.
  induction reads as [| rd reads IH]; simpl.
  - apply alerts_of_ret.
  - assert (IH' : alerts_of (fun s => reads_alert s (rd :: reads))
                            (_surveillance_loop reads)).
    { eapply alerts_of_weaken; [| exact IH].
      intros s a (frame & Hin & Ha). exists frame. split; [now right | exact Ha]. }
    pose proof (reads_alert_same (rd :: reads)) as Hsame.
    apply alerts_of_bind; [exact Hsame | apply alerts_of_get_self | intros s].
    destruct (surveillance_active s && bool_decide (is_Some (camera_cap s)));
      [| apply alerts_of_ret].
    apply alerts_of_bind; [exact Hsame | apply alerts_of_emit | intros _].
    destruct rd as [frame |]; [| exact IH'].
    apply alerts_of_bind;
      [exact Hsame | apply alerts_of_set_current_frame | intros _].
    apply alerts_of_bind; [exact Hsame | apply alerts_of_get_self | intros s'].
    apply alerts_of_bind; [exact Hsame | |].
    + destruct (bool_decide (0 < length (known_faces s')));
        [| apply alerts_of_ret].
      eapply alerts_of_weaken; [| apply alerts_of__detect_faces].
      intros s0 a Ha. exists frame. split; [now left | exact Ha].
    + intros _.
      apply alerts_of_bind; [exact Hsame | apply alerts_of_emit | intros _; exact IH'].
Qed.

Lemma frame_alert_registry s frame a : frame_alert s frame a -> registry_alert s a.
Proof. intros (faces & loc & face_encoding & _ & _ & Ha). now exists face_encoding. Qed.

Lemma alerts_only__detect_faces frame : alerts_only (_detect_faces frame).
Proof.
  eapply alerts_of_weaken; [| apply alerts_of__detect_faces].
  intros s a. apply frame_alert_registry.
Qed.

Lemma alerts_only__surveillance_loop reads : alerts_only (_surveillance_loop reads).
Proof.
  eapply alerts_of_weaken; [| apply alerts_of__surveillance_loop].
  intros s a (frame & _ & Ha). eapply frame_alert_registry, Ha.
Qed.

(** Neither [_detect_faces] nor the loop lets an exception escape. *)
Lemma _detect_faces_returns frame (st : state) :
  fst (_detect_faces frame st) = Ret tt.
Proof.
  unfold _detect_faces, try_except.
  match goal with |- context [match ?b with _ => _ end] => destruct b as [[[] | exn] st'] end;
    reflexivity.
Qed.


(** One iteration of the loop of an engine that is active and holds a
    camera. *)
Lemma _surveillance_loop_cons rd reads (st : state) :
  surveillance_active (fst st) = true ->
  is_Some (camera_cap (fst st)) ->
  _surveillance_loop (rd :: reads) st =
    match rd with
    | None => _surveillance_loop reads (fst st, log_event (Call cap_read) (snd st))
    | Some frame =>
        let st0 := (set_current_frame (Some frame) (fst st),
                    log_event (Call cap_read) (snd st)) in
        match (if bool_decide (0 < length (known_faces (fst st)))
               then _detect_faces frame else ret tt) st0 with
        | (Ret _, st1) =>
            _surveillance_loop reads (fst st1, log_event (Call sleep) (snd st1))
        | (Raise exn, st1) => (Raise exn, st1)
        end
    end.
Proof.
  intros Hact Hcam. destruct st as [s w]. simpl in *.
  unfold_monad. simpl. rewrite Hact, bool_decide_true by exact Hcam. simpl.
  destruct rd as [frame |]; reflexivity.
Qed.






(** *** The registry invariant *)

Lemma constructed_self w : fst (constructed w) = fresh.
Proof.
  unfold constructed, __init__, create_directories, os_makedirs. simpl.
  unfold_monad. simpl.
  destruct (pygame_mixer_init) as [[] | exn]; simpl;
    repeat match goal with
           | |- context [negb ?b] => destruct (negb b); simpl
           end; reflexivity.
Qed.

Lemma perform_consistent (op : operation) (st : state) :
  registry_consistent (fst st) -> registry_consistent (fst (perform op st)).
Proof.
  intros Hinv.
  assert (Hsame : forall s', same_registry (fst st) s' -> registry_consistent s').
  { intros s' (Hf & Hn & Hd & _). unfold registry_consistent.
    rewrite Hf, Hn, Hd. exact Hinv. }
  assert (Happend : forall enc0 name details,
    registry_consistent
      (set_known_details (known_details (fst st) ++ [details])
         (set_known_names (known_names (fst st) ++ [name])
            (set_known_faces (known_faces (fst st) ++ [enc0]) (fst st))))).
  { intros enc0 name details. destruct Hinv as [Hn Hd].
    unfold registry_consistent. simpl. rewrite !length_app. simpl. lia. }
  destruct op; simpl.
  - unfold add_suspect, try_except, bind, call.
    unfold_monad. simpl.
    destruct (fr_load_image_file image_path) as [image_ | exn]; simpl;
      [| exact Hinv].
    destruct (fr_face_encodings image_ None) as [[| enc0 encs] | exn]; simpl;
      try exact Hinv.
    apply Happend.
  - unfold add_suspect_from_array, try_except, bind, call.
    unfold_monad. simpl.
    destruct (fr_face_encodings image_array None) as [[| enc0 encs] | exn]; simpl;
      try exact Hinv.
    apply Happend.
  - unfold start_surveillance. unfold_monad. simpl.
    destruct (surveillance_active (fst st)); [exact Hinv |].
    destruct (VideoCapture_new camera_index) as [cap | exn]; simpl;
      [| exact Hinv].
    destruct (negb (isOpened cap)); [exact Hinv |].
    destruct thread_start; exact Hinv.
  - unfold stop_surveillance. unfold_monad. simpl.
    destruct (detection_thread (fst st)) as [[[|]] |]; simpl;
      destruct (camera_cap (fst st)); exact Hinv.
  - destruct (alerts_only__surveillance_loop reads st) as (o & st' & new & -> & Hreg & _).
    apply Hsame, Hreg.
  - destruct (alerts_only__detect_faces frame st) as (o & st' & new & -> & Hreg & _).
    apply Hsame, Hreg.
  - destruct (_trigger_alert_spec name details confidence frame st)
      as (o & st' & new & -> & Hreg & _).
    apply Hsame, Hreg.
  - exact Hinv.
  - exact Hinv.
  - unfold save_logs, write_file. unfold_monad. simpl.
    destruct (bool_decide ("logs" ∈ dirs (snd st))); exact Hinv.
Qed.

Lemma run_consistent (ops : list operation) : forall st : state,
  registry_consistent (fst st) -> registry_consistent (fst (run ops st)).
Proof.
  induction ops as [| op ops IH]; intros st Hinv; simpl; [exact Hinv |].
  apply IH, perform_consistent, Hinv.
Qed.

(** C9 (as the code has it): after construction and any sequence of
    operations, each run to its end, the three registry lists have the
    same length; so whenever [face_distance] answers with one distance
    per registered face, the index that [argmin] produces is a valid
    index into [known_names] and [known_details]. *)
Theorem registry_lists_aligned (w : World) (ops : list operation)
    (face_encoding : encoding) (face_distances : list float) (i : nat) :
  let s := fst (run ops (constructed w)) in
  fr_face_distance (known_faces s) face_encoding = Ret face_distances ->
  length face_distances = length (known_faces s) ->
  argmin face_distances = Ret i ->
  registry_consistent s
  /\ (exists suspect_name, index (known_names s) i = Ret suspect_name)
  /\ (exists suspect_details, index (known_details s) i = Ret suspect_details).
Proof.
  intros s _ Hlen Hmin.
  assert (Hinv : registry_consistent s).
  { apply run_consistent. rewrite constructed_self. now split. }
  split; [exact Hinv |].
  apply argmin_bound in Hmin. destruct Hinv as [Hn Hd].
  split.
  - destruct (lookup_lt_is_Some_2 (known_names s) i) as [x Hx]; [lia |].
    exists x. now apply index_Ret.
  - destruct (lookup_lt_is_Some_2 (known_details s) i) as [x Hx]; [lia |].
    exists x. now apply index_Ret.
Qed.

(** The three statements of a registration, run without the detection
    thread in between, are what [add_suspect] does to the engine. *)
Lemma add_suspect_is_three_steps image_path name details image_ enc0 encs
    (st : state) :
  fr_load_image_file image_path = Ret image_ ->
  fr_face_encodings image_ None = Ret (enc0 :: encs) ->
  fst (snd (add_suspect image_path name details st))
  = fst (fst (interleaved [registering; registering; registering]
                          (st, before_known_faces enc0 name details))).
Proof.
  intros Hload Henc. destruct st as [s w].
  unfold add_suspect. unfold_monad. simpl. rewrite Hload. simpl.
  rewrite Henc. reflexivity.
Qed.

Lemma interleaved_step_registry_at (t : thread_step) (x : state * registration) :
  registry_at (snd x) (fst (fst x)) ->
  registry_at (snd (interleaved_step t x)) (fst (fst (interleaved_step t x))).
Proof.
  destruct x as [[s w] r]. destruct t as [| frame]; simpl.
  - destruct r; simpl; unfold registry_consistent; simpl;
      rewrite ?length_app; simpl; lia.
  - destruct (alerts_only__detect_faces frame (s, w))
      as (o & st' & new & -> & (Hf & Hn & Hd & _) & _).
    simpl in *. destruct r; simpl; unfold registry_consistent;
      rewrite Hf, Hn, Hd; auto.
Qed.

(** Once the registration has passed its third append the lists are
    aligned again, whatever the detection thread did in between. *)
Lemma interleaved_registry_at (schedule : list thread_step) :
  forall x : state * registration,
    registry_at (snd x) (fst (fst x)) ->
    registry_at (snd (interleaved schedule x)) (fst (fst (interleaved schedule x))).
Proof.
  induction schedule as [| t schedule IH]; intros x Hx; simpl; [exact Hx |].
  apply IH, interleaved_step_registry_at, Hx.
Qed.

(** *** Persisting the alert log *)

(** C6: [save_logs] succeeds when the [logs] directory is there, returns
    the path [logs/alert_log_<timestamp>.json], and leaves under that
    path the dump of the whole alert log, in order, touching no other
    file and no attribute of the engine; so reading the file back with a
    loader that inverts [json.dump] gives exactly the in-memory sequence
    of records. *)
Theorem save_logs_round_trip (json_load : text -> option (list alert_data))
    (st : state) :
  (forall log, json_load (json_dump log) = Some log) ->
  "logs" ∈ dirs (snd st) ->
  exists log_file st',
    save_logs st = (Ret log_file, st')
    /\ log_file = "logs/alert_log_"
                  ++ strftime_Ymd_HMS (now (ticks (snd st))) ++ ".json"
    /\ fst st' = fst st
    /\ files (snd st') !! log_file = Some (json_dump (alert_log (fst st)))
    /\ (forall p, p <> log_file -> files (snd st') !! p = files (snd st) !! p)
    /\ files (snd st') !! log_file ≫= json_load = Some (alert_log (fst st)).
Proof.
  intros Hcodec Hdir. unfold save_logs, write_file. unfold_monad. simpl.
  rewrite bool_decide_true by exact Hdir. simpl.
  eexists _, _. split; [reflexivity |]. split; [reflexivity |].
  split; [reflexivity |]. simpl.
  split; [apply lookup_insert_eq |].
  split.
  - intros p Hp. now apply lookup_insert_ne.
  - rewrite lookup_insert_eq. simpl. apply Hcodec.
Qed.

End Properties.

Example argmin_first_minimum :
  argmin [0.5; 0.2; 0.9; 0.2]%float = Ret 1.
Proof. reflexivity. Qed.

Example argmin_nan :
  argmin [0.5; nan; 0.1]%float = Ret 1.
Proof. reflexivity. Qed.

Example demo_match_at_0_4 :
  alert_log (fst (snd (_detect_faces (caps := Demo.caps) [0.4%float]
                         (Demo.engine 0.6, Demo.empty_world))))
  = [ [ ("timestamp", PyStr "2024-05-01T12:00:00");
        ("suspect_name", PyStr "Doe");
        ("suspect_details", PyStr "wanted");
        ("confidence", PyFloat (1 - 0.4)%float);
        ("location", PyStr "Camera Feed") ] ].
Proof. reflexivity. Qed.

(** A session: two registrations (the second file is missing), a start,
    three reads, the timer, one more frame, a save and a stop.  The first
    frame shows two faces; only the first raises an alert. *)
Example session_trace :
  let st := run (caps := Demo.caps)
              [do_add_suspect "suspect.jpg" "Doe" "wanted";
               do_add_suspect "nofile.jpg" "Roe" "none";
               do_start_surveillance 0;
               do_surveillance_loop
                 [Some [0.3%float; 0.2%float]; None; Some [0.9%float]];
               do_reset_alert;
               do_surveillance_loop [Some [0.2%float]];
               do_save_logs;
               do_stop_surveillance]
              (constructed (caps := Demo.caps) Demo.empty_world) in
  known_names (fst st) = ["Doe"]
  /\ length (alert_log (fst st)) = 2
  /\ trace (snd st) =
       [Call mixer_init; Call (makedirs "suspects"); Call (makedirs "alerts");
        Call (makedirs "logs");
        Call (load_image_file "suspect.jpg"); Call face_encodings;
        Call (load_image_file "nofile.jpg");
        Print "Error adding suspect: FileNotFoundError";
        Call (cv2_VideoCapture 0); Call Thread_start;
        Call cap_read; Call cv2_resize; Call face_locations; Call face_encodings;
        Call compare_faces; Call face_distance;
        Call (cv2_imwrite "alerts/alert_Doe_20240501_120000.jpg");
        Call alert_sound; Call Timer_start;
        Call compare_faces; Call face_distance; Call sleep;
        Call cap_read;
        Call cap_read; Call cv2_resize; Call face_locations; Call face_encodings;
        Call compare_faces; Call face_distance; Call sleep;
        Call cap_read; Call cv2_resize; Call face_locations; Call face_encodings;
        Call compare_faces; Call face_distance;
        Call (cv2_imwrite "alerts/alert_Doe_20240501_120000.jpg");
        Call alert_sound; Call Timer_start; Call sleep;
        Call (open_w "logs/alert_log_20240501_120000.json");
        Call Thread_join; Call cap_release].
Proof. vm_compute. repeat split; reflexivity. Qed.

(** ** The theorems at concrete inputs *)

(** A face at distance 0.4 from the only suspect, threshold 0.6. *)
Lemma detection_accepts_iff_witness :
  (is_suspect [true] [Demo.distance 0 0.4] 0 0.6%float = Ret true
   <-> true = true /\ (Demo.distance 0 0.4 <? 0.6)%float = true)
  /\ alert_log (fst (snd (match_face (caps := Demo.caps) 0.4%float [0.4%float]
                            (Demo.engine 0.6, Demo.empty_world))))
     = [alert_record "2024-05-01T12:00:00" "Doe" "wanted"
                     (1 - Demo.distance 0 0.4)%float].
Proof.
  destruct (detection_accepts_iff (caps := Demo.caps) 0.4%float [0.4%float]
              (Demo.engine 0.6) Demo.empty_world
              [true] [Demo.distance 0 0.4] 0 true (Demo.distance 0 0.4)
              eq_refl eq_refl eq_refl eq_refl eq_refl) as (Hiff & Hrun & _).
  split; [exact Hiff |].
  rewrite Hrun. reflexivity.
Defined.

(** With the slider at 0.9, a face at distance 0.7 from its best
    registry entry is below the threshold and is still rejected, because
    [compare_faces] (tolerance 0.6) says the entry does not match; no
    alert is logged. *)
Example rejected_below_threshold :
  let s := Demo.engine 0.9 in
  let face := 0.7%float in
  let d := Demo.distance 0 0.7 in
  fr_compare_faces (Capabilities := Demo.caps) (known_faces s) face = Ret [false]
  /\ fr_face_distance (Capabilities := Demo.caps) (known_faces s) face = Ret [d]
  /\ argmin [d] = Ret 0
  /\ (d <? confidence_threshold s)%float = true
  /\ is_suspect [false] [d] 0 (confidence_threshold s) = Ret false
  /\ _detect_faces (caps := Demo.caps) [face] (s, Demo.empty_world)
     = (Ret tt,
        (s, mkWorld 0 ∅ ∅
              [Call cv2_resize; Call face_locations; Call face_encodings;
               Call compare_faces; Call face_distance])).
Proof. repeat split; reflexivity. Qed.

(** The threshold alone does not decide acceptance: it is not the case
    that, for the matcher above, every face is accepted exactly when the
    distance to its best registry entry is below [confidence_threshold]. *)
Lemma threshold_alone_counterexample :
  ~ (forall (s : @PoliceAISystem (list float) float) (face_encoding : float)
            (matches : list bool) (face_distances : list float)
            (i : nat) (d : float),
        fr_compare_faces (Capabilities := Demo.caps) (known_faces s) face_encoding = Ret matches ->
        fr_face_distance (Capabilities := Demo.caps) (known_faces s) face_encoding
          = Ret face_distances ->
        argmin face_distances = Ret i ->
        face_distances !! i = Some d ->
        (is_suspect matches face_distances i (confidence_threshold s) = Ret true
         <-> (d <? confidence_threshold s)%float = true)).
Proof.
  intros Hclaim.
  specialize (Hclaim (Demo.engine 0.9) 0.7%float [false] [Demo.distance 0 0.7]
                     0 (Demo.distance 0 0.7) eq_refl eq_refl eq_refl eq_refl).
  destruct Hclaim as [_ Hacc].
  specialize (Hacc eq_refl). discriminate Hacc.
Qed.

(** Thresholds 0.3 and 0.6, distance 0.4. *)
Lemma acceptance_monotone_in_threshold_witness :
  is_suspect [true] [Demo.distance 0 0.4] 0 0.3%float = Ret false
  /\ match_face (caps := Demo.caps) 0.4%float [0.4%float]
       (set_confidence_threshold 0.3%float (Demo.engine 0.6), Demo.empty_world)
     = (Ret tt, (set_confidence_threshold 0.3%float (Demo.engine 0.6),
                 after_matching Demo.empty_world)).
Proof.
  apply (acceptance_monotone_in_threshold (caps := Demo.caps) 0.4%float [0.4%float]
           (Demo.engine 0.6) Demo.empty_world
           [true] [Demo.distance 0 0.4] 0 (Demo.distance 0 0.4)
           0.3%float 0.6%float);
    reflexivity.
Defined.

(** Camera 1 does not open. *)
Lemma start_surveillance_unopenable_witness :
  exists st' evs,
    start_surveillance (caps := Demo.caps) 1 (Demo.engine 0.6, Demo.empty_world)
      = (Ret false, st')
    /\ surveillance_active (fst st') = false
    /\ detection_thread (fst st') = None
    /\ new_events (Demo.engine 0.6, Demo.empty_world) st' evs
    /\ (Call Thread_start ∉ evs)
    /\ known_faces (fst st') = [0%float]
    /\ alert_active (fst st') = false
    /\ alert_log (fst st') = [].
Proof.
  apply (start_surveillance_unopenable (caps := Demo.caps) 1
           (Demo.engine 0.6, Demo.empty_world)); reflexivity.
Defined.

Lemma start_surveillance_already_active_witness :
  start_surveillance (caps := Demo.caps) 0 (Demo.watching, Demo.empty_world)
  = (Ret false, (Demo.watching, Demo.empty_world)).
Proof.
  apply (start_surveillance_already_active (caps := Demo.caps) 0
           (Demo.watching, Demo.empty_world)); reflexivity.
Defined.

(** An active engine with an empty registry, two frames and a failed read. *)
Lemma surveillance_loop_empty_registry_witness :
  exists st' evs,
    _surveillance_loop (caps := Demo.caps) [Some [0.1%float]; None; Some [0.2%float]]
                       (Demo.watching, Demo.empty_world) = (Ret tt, st')
    /\ new_events (Demo.watching, Demo.empty_world) st' evs
    /\ Forall loop_only evs
    /\ known_faces (fst st') = []
    /\ alert_active (fst st') = false
    /\ alert_log (fst st') = [].
Proof.
  apply (surveillance_loop_empty_registry (caps := Demo.caps)
           [Some [0.1%float]; None; Some [0.2%float]]
           (Demo.watching, Demo.empty_world)); reflexivity.
Defined.

(** A frame read in the middle of a registration.  The new face is in
    [known_faces], its name is not yet in [known_names]; the detection
    thread matches the face in front of the camera against the new entry
    and [known_names[best_match_index]] raises, which [_detect_faces]
    reports: no alert is logged for the suspect shown. *)
Example detection_during_registration :
  let x := interleaved (caps := Demo.caps)
             [registering; detecting [0.25%float]; registering; registering]
             ((Demo.watching, Demo.empty_world),
              before_known_faces 0.25%float "Doe" "wanted") in
  trace (snd (fst x))
  = [Call cv2_resize; Call face_locations; Call face_encodings;
     Call compare_faces; Call face_distance;
     Print "Detection error: IndexError: list index out of range"]
  /\ alert_log (fst (fst x)) = []
  /\ known_names (fst (fst x)) = ["Doe"]
  /\ snd x = before_return.
Proof. repeat split; reflexivity. Qed.

(** The registry lists are not always of equal length: it is not the
    case that at every point of a registration interleaved with the
    detection thread the lists are aligned and the best-match index is
    a valid index into [known_names] and [known_details]. *)
Lemma registry_misaligned_during_registration :
  ~ (forall (schedule : list (@thread_step (list float)))
            (st : @state (list float) float (list alert_data))
            (enc0 : float) (name details : string)
            (face_encoding : float) (face_distances : list float) (i : nat),
        registry_consistent (fst st) ->
        let s := fst (fst (interleaved (caps := Demo.caps) schedule
                             (st, before_known_faces enc0 name details))) in
        fr_face_distance (Capabilities := Demo.caps) (known_faces s) face_encoding
          = Ret face_distances ->
        length face_distances = length (known_faces s) ->
        argmin face_distances = Ret i ->
        registry_consistent s
        /\ (exists suspect_name, index (known_names s) i = Ret suspect_name)
        /\ (exists suspect_details,
               index (known_details s) i = Ret suspect_details)).
Proof.
  intros Hclaim.
  specialize (Hclaim [registering] (Demo.watching, Demo.empty_world)
                     0.25%float "Doe" "wanted" 0.25%float
                     [Demo.distance 0.25 0.25] 0
                     (conj eq_refl eq_refl) eq_refl eq_refl eq_refl).
  destruct Hclaim as (_ & (suspect_name & Hname) & _).
  discriminate Hname.
Qed.


(** A registration, a start, one frame; then a face at distance 0.15. *)
Lemma registry_lists_aligned_witness :
  let ops := [do_add_suspect "suspect.jpg" "Doe" "wanted";
              do_add_suspect "landscape.jpg" "Roe" "none";
              do_start_surveillance 0;
              do_surveillance_loop [Some [0.3%float]]] in
  let s := fst (run (caps := Demo.caps) ops (constructed (caps := Demo.caps) Demo.empty_world)) in
  registry_consistent s
  /\ (exists suspect_name, index (known_names s) 0 = Ret suspect_name)
  /\ (exists suspect_details, index (known_details s) 0 = Ret suspect_details).
Proof.
  apply (registry_lists_aligned (caps := Demo.caps) Demo.empty_world
           [do_add_suspect "suspect.jpg" "Doe" "wanted";
            do_add_suspect "landscape.jpg" "Roe" "none";
            do_start_surveillance 0;
            do_surveillance_loop [Some [0.3%float]]]
           0.4%float [Demo.distance 0.25 0.4] 0);
    reflexivity.
Defined.

(** Saving the log of an engine that has raised one alert. *)
Lemma save_logs_round_trip_witness :
  let st := run (caps := Demo.caps)
              [do_add_suspect "suspect.jpg" "Doe" "wanted";
               do_detect_faces [0.3%float]]
              (constructed (caps := Demo.caps) Demo.empty_world) in
  length (alert_log (fst st)) = 1
  /\ exists st',
       save_logs (caps := Demo.caps) st
         = (Ret "logs/alert_log_20240501_120000.json", st')
       /\ files (snd st') !! "logs/alert_log_20240501_120000.json"
            ≫= Demo.json_load = Some (alert_log (fst st)).
Proof.
  intros st. split; [reflexivity |].
  destruct (save_logs_round_trip (caps := Demo.caps) Demo.json_load st)
    as (log_file & st' & Hrun & -> & _ & _ & _ & Hback);
    [ reflexivity | vm_compute; reflexivity |].
  exists st'. split; [exact Hrun | exact Hback].
Defined.

(** An engine in cooldown ignores two further matches; an idle one logs
    two alerts over match, match, expiry, match. *)
Lemma debounce_one_alert_per_transition_witness :
  let active := (set_alert_active true (Demo.engine 0.6), Demo.empty_world) in
  let hit := accepted_match "Doe" "wanted" 0.6%float [0.4%float] in
  for_each [hit; hit] (debounce_step (caps := Demo.caps)) active = (Ret tt, active)
  /\ exists st' new,
       for_each [hit; hit; cooldown_expiry; hit] (debounce_step (caps := Demo.caps))
                (Demo.engine 0.6, Demo.empty_world) = (Ret tt, st')
       /\ alert_log (fst st') = new
       /\ length new = 2.
Proof.
  intros active hit.
  destruct (debounce_one_alert_per_transition (caps := Demo.caps) active) as (_ & Hquiet & _).
  split.
  - apply Hquiet; [reflexivity |].
    repeat constructor; discriminate.
  - destruct (debounce_one_alert_per_transition (caps := Demo.caps)
                (Demo.engine 0.6, Demo.empty_world)) as (_ & _ & Hcount).
    destruct (Hcount [hit; hit; cooldown_expiry; hit])
      as (st' & new & Hrun & Hlog & Hlen).
    exists st', new. auto.
Defined.

(** A picture without a face, by path and as an array. *)
Lemma add_suspect_no_face_witness :
  let st := (Demo.engine 0.6, Demo.empty_world) in
  (exists st', add_suspect (caps := Demo.caps) "landscape.jpg" "Roe" "none" st
               = (Ret false, st') /\ fst st' = fst st)
  /\ (exists st', add_suspect_from_array (caps := Demo.caps) [] "Roe" "none" st
                  = (Ret false, st') /\ fst st' = fst st).
Proof.
  intros st.
  destruct (add_suspect_no_face (caps := Demo.caps) "Roe" "none" st) as [Hpath Harray].
  split.
  - apply (Hpath "landscape.jpg" []); reflexivity.
  - apply (Harray []); reflexivity.
Defined.

(** * More on [np.argmin]: ties go to the earliest entry *)

Lemma SFltb_of_not_SFleb (x y : spec_float) :
  SFeqb x x = true -> SFeqb y y = true -> SFleb x y = false -> SFltb y x = true.
Proof.
  unfold SFleb, SFltb, SFeqb.
  destruct x as [sx | sx | | sx mx ex], y as [sy | sy | | sy my ey]; simpl;
    try destruct sx; try destruct sy; simpl; try congruence.
  all: intros _ _;
    destruct (Z.compare_spec ex ey), (Z.compare_spec ey ex);
    simpl; try congruence; try lia;
    destruct (PosDef.Pos.compare_cont Eq mx my) eqn:Exy,
             (PosDef.Pos.compare_cont Eq my mx) eqn:Eyx;
    cbn [CompOpp]; try congruence; pos_order; lia.
Qed.

Lemma SFltb_SFleb_trans (x y z : spec_float) :
  SFltb x y = true -> SFleb y z = true -> SFltb x z = true.
Proof.
  unfold SFleb, SFltb.
  destruct x as [sx | sx | | sx mx ex], y as [sy | sy | | sy my ey],
           z as [sz | sz | | sz mz ez]; simpl;
    try destruct sx; try destruct sy; try destruct sz; simpl;
    try congruence.
  all: destruct (Z.compare_spec ex ey), (Z.compare_spec ey ez),
                (Z.compare_spec ex ez);
    simpl; try congruence; try lia.
  all: destruct (PosDef.Pos.compare_cont Eq mx my) eqn:Exy,
                (PosDef.Pos.compare_cont Eq my mz) eqn:Eyz,
                (PosDef.Pos.compare_cont Eq mx mz) eqn:Exz;
    cbn [CompOpp]; try congruence; pos_order; lia.
Qed.

Lemma ltb_of_not_leb (x y : float) :
  is_nan x = false -> is_nan y = false ->
  (x <=? y)%float = false -> (y <? x)%float = true.
Proof.
  unfold is_nan. intros Hx Hy.
  apply negb_false_iff in Hx, Hy. rewrite FloatAxioms.eqb_spec in Hx, Hy.
  rewrite leb_spec, ltb_spec. now apply SFltb_of_not_SFleb.
Qed.

Lemma ltb_leb_trans (x y z : float) :
  (x <? y)%float = true -> (y <=? z)%float = true -> (x <? z)%float = true.
Proof. rewrite !ltb_spec, leb_spec. apply SFltb_SFleb_trans. Qed.

Lemma ltb_leb (x y : float) : (x <? y)%float = true -> (x <=? y)%float = true.
Proof.
  rewrite ltb_spec, leb_spec. unfold SFltb, SFleb.
  destruct (SFcompare _ _) as [[] |]; congruence.
Qed.

(** The scan, seen from the whole array: [pre] is the part already
    scanned, [min_ind] the position of the running minimum [mp] in it. *)
Lemma argmin_scan_first (ip : list float) : forall (pre : list float) mp min_ind,
  pre !! min_ind = Some mp ->
  Forall (fun x => is_nan x = false) (pre ++ ip)%list ->
  (forall j x, pre !! j = Some x -> (mp <=? x)%float = true) ->
  (forall j x, j < min_ind -> pre !! j = Some x -> (mp <? x)%float = true) ->
  exists d,
    (pre ++ ip)%list !! argmin_scan min_ind mp (length pre) ip = Some d
    /\ (forall j x, (pre ++ ip)%list !! j = Some x -> (d <=? x)%float = true)
    /\ (forall j x, j < argmin_scan min_ind mp (length pre) ip ->
                    (pre ++ ip)%list !! j = Some x -> (d <? x)%float = true).
Proof.
  induction ip as [| x ip IH]; intros pre mp min_ind Hlook Hnan Hall Hbefore; simpl.
  - rewrite app_nil_r. exists mp. auto.
  - assert (Hx : is_nan x = false).
    { apply Forall_app in Hnan as [_ Hnan]. now apply Forall_cons in Hnan as [Hx _]. }
    assert (Hmp : is_nan mp = false).
    { apply Forall_app in Hnan as [Hnan _].
      rewrite Forall_lookup in Hnan. exact (Hnan _ _ Hlook). }
    replace (pre ++ x :: ip)%list with ((pre ++ [x]) ++ ip)%list in *
      by now rewrite <- app_assoc.
    replace (S (length pre)) with (length (pre ++ [x])%list)
      by (rewrite length_app; simpl; lia).
    destruct (mp <=? x)%float eqn:Hle; simpl.
    + apply IH; try assumption.
      * rewrite lookup_app_l; [exact Hlook |]. now apply lookup_lt_Some in Hlook.
      * intros j y Hj. apply lookup_app_Some in Hj as [Hj | [_ Hj]];
          [now apply (Hall j) |].
        apply list_lookup_singleton_Some in Hj as [_ <-]. exact Hle.
      * intros j y Hlt Hj. apply (Hbefore j); [exact Hlt |].
        apply lookup_lt_Some in Hlook.
        rewrite lookup_app_l in Hj; [exact Hj | lia].
    + rewrite Hx.
      assert (Hlt : (x <? mp)%float = true) by now apply ltb_of_not_leb.
      apply IH; try assumption.
      * rewrite lookup_app_r by lia. now rewrite Nat.sub_diag.
      * intros j y Hj. apply lookup_app_Some in Hj as [Hj | [_ Hj]].
        -- apply ltb_leb. eapply ltb_leb_trans; [exact Hlt | now apply (Hall j)].
        -- apply list_lookup_singleton_Some in Hj as [_ <-]. now apply leb_refl.
      * intros j y Hj Hy. rewrite lookup_app_l in Hy by exact Hj.
        eapply ltb_leb_trans; [exact Hlt | now apply (Hall j)].
Qed.

(** X15: on distances without a NaN, [best_match_index] is the first
    position of a smallest distance: the distance it holds is [<=] every
    distance and strictly below every distance before it.  So when two
    registered faces are equally close to a detected face, the one
    registered earlier is the match. *)
Theorem best_match_is_the_first_minimum (face_distances : list float) (i : nat) :
  Forall (fun x => is_nan x = false) face_distances ->
  argmin face_distances = Ret i ->
  exists d,
    face_distances !! i = Some d
    /\ (forall j x, face_distances !! j = Some x -> (d <=? x)%float = true)
    /\ (forall j x, j < i -> face_distances !! j = Some x -> (d <? x)%float = true).
Proof.
  destruct face_distances as [| mp ip]; simpl; [discriminate |].
  intros Hnan Hmin.
  assert (Hmp : is_nan mp = false) by now apply Forall_cons in Hnan as [Hmp _].
  rewrite Hmp in Hmin. injection Hmin as <-.
  apply (argmin_scan_first ip [mp] mp 0); try assumption.
  - reflexivity.
  - intros j x Hj. apply list_lookup_singleton_Some in Hj as [_ <-].
    now apply leb_refl.
  - intros j x Hj. lia.
Qed.

Lemma best_match_is_the_first_minimum_witness :
  exists d,
    [0.5; 0.2; 0.9; 0.2]%float !! 1 = Some d
    /\ (forall j x, [0.5; 0.2; 0.9; 0.2]%float !! j = Some x -> (d <=? x)%float = true)
    /\ (forall j x, j < 1 -> [0.5; 0.2; 0.9; 0.2]%float !! j = Some x
                    -> (d <? x)%float = true).
Proof.
  apply (best_match_is_the_first_minimum [0.5; 0.2; 0.9; 0.2]%float 1);
    [ repeat constructor | reflexivity ].
Defined.

(** * More of the engine

    Properties of the methods beyond the start-up, registration-failure,
    decision and debouncing facts above: what registrations and starts
    leave behind, what stopping does, what the loop publishes, how
    failures of the collaborators are absorbed, and what no operation
    ever does. *)

Section EngineProperties.

Context {image encoding datetime text : Type}.
Context {caps : @Capabilities image encoding datetime text}.

Local Abbreviation PoliceAISystem := (@PoliceAISystem image encoding).
Local Abbreviation World := (@World text).
Local Abbreviation state := (@state image encoding text).
Local Abbreviation M := (@M image encoding text).

Ltac unfold_monad :=
  unfold call, print, emit, lift, get_self, get_world, modify_self,
    modify_world, datetime_now, try_except, bind, ret, raise in *.

(** ** Computations that stay within a relation *)

Section Preserving.

Variable R : state -> state -> Prop.
Context {Rrefl : Reflexive R} {Rtrans : Transitive R}.

Lemma preserves_ret {A} (a : A) : preserves R (ret a : M A).
Proof. intros st. reflexivity. Qed.

Lemma preserves_lift {A} (o : outcome A) : preserves R (lift o : M A).
Proof. intros st. reflexivity. Qed.

Lemma preserves_get_self : preserves R (get_self : M PoliceAISystem).
Proof. intros st. reflexivity. Qed.

Lemma preserves_bind {A B} (m : M A) (k : A -> M B) :
  preserves R m -> (forall a, preserves R (k a)) -> preserves R (bind m k).
Proof.
  intros Hm Hk st. unfold bind. specialize (Hm st).
  destruct (m st) as [[a | exn] st1]; simpl in *; [| exact Hm].
  transitivity st1; [exact Hm | apply Hk].
Qed.

Lemma preserves_try_except {A} (body : M A) (handler : string -> M A) :
  preserves R body -> (forall e, preserves R (handler e)) ->
  preserves R (try_except body handler).
Proof.
  intros Hm Hk st. unfold try_except. specialize (Hm st).
  destruct (body st) as [[a | exn] st1]; simpl in *; [exact Hm |].
  transitivity st1; [exact Hm | apply Hk].
Qed.

Lemma preserves_for_each {A} (xs : list A) (body : A -> M unit) :
  (forall x, preserves R (body x)) -> preserves R (for_each xs body).
Proof.
  intros Hbody. induction xs as [| x xs IH]; simpl.
  - apply preserves_ret.
  - apply preserves_bind; [apply Hbody | intros _; exact IH].
Qed.

(** What the detection path does to the state: it records events of its
    own kind, reads the clock, writes [alert_active] and appends to
    [alert_log]. *)
Hypothesis Revent : forall (st : state) e,
  detection_event e = true -> R st (fst st, log_event e (snd st)).
Hypothesis Rtick : forall st : state, R st (fst st, tick (snd st)).
Hypothesis Rflag : forall (st : state) b,
  R st (set_alert_active b (fst st), snd st).
Hypothesis Rlog : forall (st : state) a,
  R st (set_alert_log (alert_log (fst st) ++ [a]) (fst st), snd st).

Lemma preserves_emit (e : event) :
  detection_event e = true -> preserves R (emit e : M unit).
Proof. intros He st. now apply Revent. Qed.

Lemma preserves_call {A} (c : capability) (answer : outcome A) :
  detection_event (Call c) = true -> preserves R (call c answer : M A).
Proof.
  intros Hc. unfold call.
  apply preserves_bind; [now apply preserves_emit | intros _; apply preserves_lift].
Qed.

Lemma preserves__trigger_alert name details confidence frame :
  preserves R (_trigger_alert name details confidence frame).
Proof.
  unfold _trigger_alert, _play_alert_sound.
  apply preserves_bind; [apply preserves_get_self | intros s].
  destruct (alert_active s); [apply preserves_ret |].
  apply preserves_bind; [intros st; apply Rflag | intros _].
  apply preserves_bind; [intros st; apply Rtick | intros t].
  apply preserves_bind; [intros st; apply Rlog | intros _].
  apply preserves_bind; [intros st; apply Rtick | intros t'].
  apply preserves_bind; [now apply preserves_call | intros _].
  apply preserves_bind; [| intros _; now apply preserves_emit].
  apply preserves_try_except;
    [now apply preserves_call | intros e; now apply preserves_emit].
Qed.

Lemma preserves_match_face face_encoding frame :
  preserves R (match_face face_encoding frame).
Proof.
  unfold match_face.
  apply preserves_bind; [apply preserves_get_self | intros s].
  apply preserves_bind; [now apply preserves_call | intros matches].
  apply preserves_bind; [now apply preserves_call | intros face_distances].
  apply preserves_bind; [apply preserves_lift | intros i].
  apply preserves_bind; [apply preserves_lift | intros accepted].
  destruct accepted; [| apply preserves_ret].
  apply preserves_bind; [apply preserves_lift | intros suspect_name].
  apply preserves_bind; [apply preserves_lift | intros suspect_details].
  apply preserves_bind; [apply preserves_lift | intros d].
  apply preserves__trigger_alert.
Qed.

Lemma preserves__detect_faces frame : preserves R (_detect_faces frame).
Proof.
  unfold _detect_faces.
  apply preserves_try_except; [| intros e; now apply preserves_emit].
  apply preserves_bind; [now apply preserves_call | intros small_frame].
  apply preserves_bind; [now apply preserves_call | intros face_locations_].
  apply preserves_bind; [now apply preserves_call | intros face_encodings_].
  apply preserves_for_each. intros [loc face_encoding].
  apply preserves_match_face.
Qed.

(** The loop also reads the camera, sleeps and publishes the frame. *)
Hypothesis Rloop : forall (st : state) e,
  is_read e || is_sleep e = true -> R st (fst st, log_event e (snd st)).
Hypothesis Rframe : forall (st : state) v,
  R st (set_current_frame v (fst st), snd st).

Lemma preserves__surveillance_loop reads : preserves R (_surveillance_loop reads).
Proof.
  induction reads as [| rd reads IH]; simpl.
  - apply preserves_ret.
  - apply preserves_bind; [apply preserves_get_self | intros s].
    destruct (surveillance_active s && bool_decide (is_Some (camera_cap s)));
      [| apply preserves_ret].
    apply preserves_bind; [intros st; now apply Rloop | intros _].
    destruct rd as [frame |]; [| exact IH].
    apply preserves_bind; [intros st; apply Rframe | intros _].
    apply preserves_bind; [apply preserves_get_self | intros s'].
    apply preserves_bind.
    + destruct (bool_decide (0 < length (known_faces s')));
        [apply preserves__detect_faces | apply preserves_ret].
    + intros _. apply preserves_bind; [intros st; now apply Rloop | intros _; exact IH].
Qed.

End Preserving.

(** ** The relations used below *)

#[local] Instance same_camera_preorder :
  PreOrder (same_camera (image := image) (encoding := encoding)).
Proof.
  split.
  - intros s. now repeat split.
  - intros s1 s2 s3 (Ha & Hc & Ht) (Ha' & Hc' & Ht'). repeat split; congruence.
Qed.

#[local] Instance same_frame_preorder :
  PreOrder (same_frame (image := image) (encoding := encoding)).
Proof.
  split.
  - intros s. reflexivity.
  - intros s1 s2 s3 H1 H2. unfold same_frame in *. congruence.
Qed.

#[local] Instance same_registry_preorder :
  PreOrder (same_registry (image := image) (encoding := encoding)).
Proof.
  split.
  - intros s. apply same_registry_refl.
  - intros s1 s2 s3. apply same_registry_trans.
Qed.

#[local] Instance on_self_preorder (R : PoliceAISystem -> PoliceAISystem -> Prop)
  `{!PreOrder R} : PreOrder (on_self (text := text) R).
Proof.
  split.
  - intros st. unfold on_self. reflexivity.
  - intros st1 st2 st3. unfold on_self. apply transitivity.
Qed.

#[local] Instance traced_preorder (allowed : event -> bool) :
  PreOrder (traced (image := image) (encoding := encoding) (text := text) allowed).
Proof.
  split.
  - intros st. exists []. split; [now rewrite app_nil_r | constructor].
  - intros st1 st2 st3 (evs1 & H1 & Hall1) (evs2 & H2 & Hall2).
    exists (evs1 ++ evs2)%list. split.
    + rewrite H2, H1. now rewrite app_assoc.
    + now apply Forall_app.
Qed.

#[local] Instance detection_keeps_preorder :
  PreOrder (detection_keeps (image := image) (encoding := encoding) (text := text)).
Proof.
  split.
  - intros st. repeat split; reflexivity.
  - intros st1 st2 st3 (Hc & Hf & Hr & Ht & Hfi & Hd) (Hc' & Hf' & Hr' & Ht' & Hfi' & Hd').
    split; [etransitivity; eassumption |].
    split; [etransitivity; eassumption |].
    split; [etransitivity; eassumption |].
    split; [etransitivity; eassumption |].
    split; congruence.
Qed.

Lemma traced_one (allowed : event -> bool) (st : state) (e : event) :
  allowed e = true -> traced allowed st (fst st, log_event e (snd st)).
Proof. intros He. exists [e]. split; [reflexivity | now constructor]. Qed.

Lemma detection_keeps_world (st : state) (w' : World) (evs : list event) :
  trace w' = (trace (snd st) ++ evs)%list ->
  Forall (fun e => detection_event e = true) evs ->
  files w' = files (snd st) -> dirs w' = dirs (snd st) ->
  detection_keeps st (fst st, w').
Proof.
  intros Htrace Hall Hfiles Hdirs.
  split; [reflexivity |]. split; [reflexivity |]. split; [reflexivity |].
  split; [now exists evs |]. now split.
Qed.

Lemma detection_keeps_self (st : state) (s' : PoliceAISystem) :
  same_camera (fst st) s' -> same_frame (fst st) s' -> same_registry (fst st) s' ->
  detection_keeps st (s', snd st).
Proof.
  intros Hc Hf Hr. split; [exact Hc |]. split; [exact Hf |]. split; [exact Hr |].
  split; [| now split].
  exists []. split; [simpl; now rewrite app_nil_r | constructor].
Qed.

Lemma _detect_faces_keeps frame (st : state) :
  detection_keeps st (snd (_detect_faces frame st)).
Proof.
  apply (preserves__detect_faces detection_keeps).
  - intros st0 e He.
    apply (detection_keeps_world st0 _ [e]); [reflexivity | now constructor | | ];
      reflexivity.
  - intros st0.
    apply (detection_keeps_world st0 _ []); [apply eq_sym, app_nil_r | constructor | | ];
      reflexivity.
  - intros st0 b. apply detection_keeps_self; now repeat split.
  - intros st0 a. apply detection_keeps_self; now repeat split.
Qed.

Lemma filter_detection_events (evs : list event) :
  Forall (fun e => detection_event e = true) evs ->
  List.filter is_read evs = [] /\ List.filter is_sleep evs = [].
Proof.
  induction 1 as [| e evs He _ [IHr IHs]]; [now split |].
  simpl. rewrite IHr, IHs.
  destruct e as [[] | msg]; simpl in *; try discriminate; now split.
Qed.

(** ** The surveillance loop *)

Lemma loop_step_events (st st1 st' : state) (head devs tail evs : list event) :
  trace (snd st1) = ((trace (snd st) ++ head) ++ devs)%list ->
  Forall (fun e => detection_event e = true) devs ->
  trace (snd st') = ((trace (snd st1) ++ tail) ++ evs)%list ->
  trace (snd st') = (trace (snd st) ++ (head ++ devs ++ tail ++ evs))%list
  /\ List.filter is_read (head ++ devs ++ tail ++ evs)
     = (List.filter is_read head ++ List.filter is_read tail
        ++ List.filter is_read evs)%list
  /\ List.filter is_sleep (head ++ devs ++ tail ++ evs)
     = (List.filter is_sleep head ++ List.filter is_sleep tail
        ++ List.filter is_sleep evs)%list.
Proof.
  intros H1 Hall H2. destruct (filter_detection_events devs Hall) as [Hr Hs].
  split; [rewrite H2, H1; now rewrite <- !app_assoc |].
  rewrite !List.filter_app, Hr, Hs. now split.
Qed.

(** One iteration of an active loop. *)
Lemma detect_if_keeps (b : bool) frame (st0 : state) :
  exists st1 devs,
    (if b then _detect_faces frame else ret tt) st0 = (Ret tt, st1)
    /\ same_camera (fst st0) (fst st1)
    /\ same_frame (fst st0) (fst st1)
    /\ trace (snd st1) = (trace (snd st0) ++ devs)%list
    /\ Forall (fun e => detection_event e = true) devs.
Proof.
  destruct b.
  - pose proof (_detect_faces_returns frame st0) as Hret.
    pose proof (_detect_faces_keeps frame st0)
      as (Hc & Hf & _ & (devs & Htr & Hall) & _).
    destruct (_detect_faces frame st0) as [o st1]. simpl in *. subst o.
    exists st1, devs. auto.
  - exists st0, []. rewrite app_nil_r.
    repeat split; auto.
Qed.

(** X1: while the engine is active and holds a camera, the loop takes
    every read the camera offers, whatever the detector, the matcher,
    the image writer or the sound device do: it returns normally, has
    read the camera once per offered read and slept once per successful
    read, leaves [current_frame] at the last frame read successfully
    (untouched when every read failed), and does not touch the
    surveillance flag, the camera handle or the thread. *)
Theorem surveillance_loop_publishes_last_frame (reads : list (option image)) :
  forall st : state,
    surveillance_active (fst st) = true ->
    is_Some (camera_cap (fst st)) ->
    exists st' evs,
      _surveillance_loop reads st = (Ret tt, st')
      /\ new_events st st' evs
      /\ length (List.filter is_read evs) = length reads
      /\ length (List.filter is_sleep evs) = length (omap id reads)
      /\ current_frame (fst st') = last_frame reads (current_frame (fst st))
      /\ same_camera (fst st) (fst st').
Proof.
  unfold new_events.
  induction reads as [| rd reads IH]; intros st Hact Hcam.
  - exists st, []. simpl. rewrite app_nil_r.
    repeat split; reflexivity.
  - rewrite _surveillance_loop_cons by assumption.
    destruct rd as [frame |].
    + cbv zeta.
      destruct (detect_if_keeps (bool_decide (0 < length (known_faces (fst st))))
                  frame (set_current_frame (Some frame) (fst st),
                         log_event (Call cap_read) (snd st)))
        as (st1 & devs & Hrun & (Ha1 & Hc1 & Ht1) & Hf1 & Htr1 & Hall1).
      rewrite Hrun. simpl in Ha1, Hc1, Ht1, Hf1, Htr1.
      destruct (IH (fst st1, log_event (Call sleep) (snd st1)))
        as (st' & evs & Hloop & Hevs & Hreads & Hsleeps & Hframe & Hcam').
      { simpl. rewrite Ha1. exact Hact. }
      { simpl. rewrite Hc1. exact Hcam. }
      exists st', ([Call cap_read] ++ devs ++ [Call sleep] ++ evs)%list.
      split; [exact Hloop |].
      destruct (loop_step_events st st1 st' [Call cap_read] devs [Call sleep] evs)
        as (Htrace & Hfr & Hfs); try assumption.
      split; [exact Htrace |].
      split; [rewrite Hfr; simpl; now rewrite Hreads |].
      split; [rewrite Hfs; simpl; now rewrite Hsleeps |].
      split.
      * rewrite Hframe. simpl. unfold same_frame in Hf1. now rewrite Hf1.
      * destruct Hcam' as (Ha2 & Hc2 & Ht2). simpl in *.
        repeat split; congruence.
    + destruct (IH (fst st, log_event (Call cap_read) (snd st)) Hact Hcam)
        as (st' & evs & Hloop & Hevs & Hreads & Hsleeps & Hframe & Hcam').
      exists st', (Call cap_read :: evs).
      split; [exact Hloop |].
      split; [rewrite Hevs; simpl; now rewrite <- app_assoc |].
      simpl. rewrite Hreads, Hsleeps. repeat split; try reflexivity; try apply Hcam'.
      exact Hframe.
Qed.

(** X2: one run of the loop, over any number of frames and faces, adds at
    most one record to the alert log; it adds none when the engine is
    already in cooldown, and whenever it adds one the engine is in
    cooldown afterwards. *)
Theorem surveillance_loop_at_most_one_alert (reads : list (option image))
    (st : state) :
  exists new,
    alert_log (fst (snd (_surveillance_loop reads st)))
      = (alert_log (fst st) ++ new)%list
    /\ length new <= 1
    /\ (alert_active (fst st) = true -> new = [])
    /\ (new <> [] ->
        alert_active (fst (snd (_surveillance_loop reads st))) = true).
Proof.
  destruct (alerts_only__surveillance_loop reads st)
    as (o & st' & new & -> & _ & (Hlog & Hlen & Hquiet & Hnext) & _).
  exists new. simpl. repeat split; auto.
Qed.

(** ** Sequences of operations *)

Lemma same_registry_adds_nothing (s s' : PoliceAISystem) :
  same_registry s s' ->
  known_faces s' = (known_faces s ++ [])%list
  /\ known_names s' = (known_names s ++ [])%list
  /\ known_details s' = (known_details s ++ [])%list.
Proof. intros (Hf & Hn & Hd & _). rewrite !app_nil_r. auto. Qed.

Lemma perform_registry (op : operation) (st : state) :
  known_faces (fst (perform op st))
    = (known_faces (fst st) ++ map (fun r => r.1.1) (added op))%list
  /\ known_names (fst (perform op st))
    = (known_names (fst st) ++ map (fun r => r.1.2) (added op))%list
  /\ known_details (fst (perform op st))
    = (known_details (fst st) ++ map (fun r => r.2) (added op))%list.
Proof.
  destruct op; unfold added; simpl.
  - unfold add_suspect. unfold_monad. simpl.
    destruct (fr_load_image_file image_path) as [image_ | exn]; simpl;
      [| now rewrite !app_nil_r].
    destruct (fr_face_encodings image_ None) as [[| enc0 encs] | exn]; simpl;
      rewrite ?app_nil_r; auto.
  - unfold add_suspect_from_array. unfold_monad. simpl.
    destruct (fr_face_encodings image_array None) as [[| enc0 encs] | exn]; simpl;
      rewrite ?app_nil_r; auto.
  - apply same_registry_adds_nothing.
    unfold start_surveillance. unfold_monad. simpl.
    destruct (surveillance_active (fst st)); [apply same_registry_refl |].
    destruct (VideoCapture_new camera_index) as [cap | exn]; simpl;
      [| apply same_registry_refl].
    destruct (negb (isOpened cap)); [now repeat split |].
    destruct thread_start; now repeat split.
  - apply same_registry_adds_nothing.
    unfold stop_surveillance. unfold_monad. simpl.
    destruct (detection_thread (fst st)) as [[[|]] |]; simpl;
      destruct (camera_cap (fst st)); now repeat split.
  - apply same_registry_adds_nothing.
    destruct (alerts_only__surveillance_loop reads st) as (o & st' & new & -> & Hreg & _).
    exact Hreg.
  - apply same_registry_adds_nothing.
    destruct (alerts_only__detect_faces frame st) as (o & st' & new & -> & Hreg & _).
    exact Hreg.
  - apply same_registry_adds_nothing.
    destruct (_trigger_alert_spec name details confidence frame st)
      as (o & st' & new & -> & Hreg & _).
    exact Hreg.
  - now rewrite !app_nil_r.
  - now rewrite !app_nil_r.
  - apply same_registry_adds_nothing.
    unfold save_logs, write_file. unfold_monad. simpl.
    destruct (bool_decide ("logs" ∈ dirs (snd st))); apply same_registry_refl.
Qed.

(** X3: after any sequence of operations the registry is what it was,
    followed by one entry per registration that succeeded, in the order
    the registrations were made: the first face found in the image with
    the name and the details given.  Registrations whose image fails to
    load, raises in the encoder or shows no face add nothing, and no
    other operation adds, removes or reorders entries. *)
Theorem registry_is_the_successful_registrations (ops : list operation) :
  forall st : state,
    let regs := omap registered ops in
    known_faces (fst (run ops st))
      = (known_faces (fst st) ++ map (fun r => r.1.1) regs)%list
    /\ known_names (fst (run ops st))
      = (known_names (fst st) ++ map (fun r => r.1.2) regs)%list
    /\ known_details (fst (run ops st))
      = (known_details (fst st) ++ map (fun r => r.2) regs)%list.
Proof.
  induction ops as [| op ops IH]; intros st; simpl.
  - now rewrite !app_nil_r.
  - destruct (IH (perform op st)) as (Hf & Hn & Hd).
    destruct (perform_registry op st) as (Hf1 & Hn1 & Hd1).
    unfold run in *. simpl in *. rewrite Hf, Hn, Hd, Hf1, Hn1, Hd1.
    unfold added. destruct (registered op) as [r |]; simpl;
      rewrite <- ?app_assoc; simpl; rewrite ?app_nil_r; auto.
Qed.

Lemma perform_log_prefix (op : operation) (st : state) :
  alert_log (fst st) `prefix_of` alert_log (fst (perform op st)).
Proof.
  destruct op; simpl.
  - unfold add_suspect. unfold_monad. simpl.
    destruct (fr_load_image_file image_path) as [image_ | exn]; simpl; [| done].
    destruct (fr_face_encodings image_ None) as [[| enc0 encs] | exn]; simpl; done.
  - unfold add_suspect_from_array. unfold_monad. simpl.
    destruct (fr_face_encodings image_array None) as [[| enc0 encs] | exn]; simpl; done.
  - unfold start_surveillance. unfold_monad. simpl.
    destruct (surveillance_active (fst st)); [done |].
    destruct (VideoCapture_new camera_index) as [cap | exn]; simpl; [| done].
    destruct (negb (isOpened cap)); [done |].
    destruct thread_start; done.
  - unfold stop_surveillance. unfold_monad. simpl.
    destruct (detection_thread (fst st)) as [[[|]] |]; simpl;
      destruct (camera_cap (fst st)); done.
  - destruct (alerts_only__surveillance_loop reads st)
      as (o & st' & new & -> & _ & (Hlog & _) & _).
    simpl. rewrite Hlog. now apply prefix_app_r.
  - destruct (alerts_only__detect_faces frame st)
      as (o & st' & new & -> & _ & (Hlog & _) & _).
    simpl. rewrite Hlog. now apply prefix_app_r.
  - destruct (_trigger_alert_spec name details confidence frame st)
      as (o & st' & new & -> & _ & (Hlog & _) & _).
    simpl. rewrite Hlog. now apply prefix_app_r.
  - done.
  - done.
  - unfold save_logs, write_file. unfold_monad. simpl.
    destruct (bool_decide ("logs" ∈ dirs (snd st))); done.
Qed.

(** X4: the alert log is append-only: after any sequence of operations
    the log the engine had is an initial segment of the log it has, so
    no record is ever removed, rewritten or reordered, by saving, by
    stopping or by the timer. *)
Theorem alert_log_append_only (ops : list operation) :
  forall st : state,
    alert_log (fst st) `prefix_of` alert_log (fst (run ops st)).
Proof.
  induction ops as [| op ops IH]; intros st; simpl; [done |].
  etransitivity; [apply (perform_log_prefix op st) | apply IH].
Qed.

(** ** Starting and stopping *)

Lemma on_self_same_camera_loop reads (st : state) :
  same_camera (fst st) (fst (snd (_surveillance_loop reads st))).
Proof.
  apply (preserves__surveillance_loop (on_self same_camera));
    intros; unfold on_self; simpl; now repeat split.
Qed.

Lemma perform_same_camera (op : operation) (st : state) :
  (forall camera_index, op <> do_start_surveillance camera_index) ->
  op <> do_stop_surveillance ->
  same_camera (fst st) (fst (perform op st)).
Proof.
  intros Hstart Hstop. destruct op; simpl.
  - unfold add_suspect. unfold_monad. simpl.
    destruct (fr_load_image_file image_path) as [image_ | exn]; simpl;
      [| now repeat split].
    destruct (fr_face_encodings image_ None) as [[| enc0 encs] | exn]; simpl;
      now repeat split.
  - unfold add_suspect_from_array. unfold_monad. simpl.
    destruct (fr_face_encodings image_array None) as [[| enc0 encs] | exn]; simpl;
      now repeat split.
  - now destruct (Hstart camera_index).
  - congruence.
  - apply on_self_same_camera_loop.
  - apply (_detect_faces_keeps frame st).
  - apply (preserves__trigger_alert (on_self same_camera));
      intros; unfold on_self; simpl; now repeat split.
  - now repeat split.
  - now repeat split.
  - unfold save_logs, write_file. unfold_monad. simpl.
    destruct (bool_decide ("logs" ∈ dirs (snd st))); now repeat split.
Qed.

Lemma perform_camera_ready (op : operation) (st : state) :
  camera_ready (fst st) -> camera_ready (fst (perform op st)).
Proof.
  intros [Hthreads Hready].
  assert (Hkeep : forall s', same_camera (fst st) s' -> camera_ready s').
  { intros s' (Ha & Hc & Ht). split.
    - intros thread. rewrite Ht. apply Hthreads.
    - intros Hactive. rewrite Ha in Hactive.
      destruct (Hready Hactive) as (cap & Hcap & Hopen & Hthread).
      exists cap. rewrite Hc, Ht. auto. }
  destruct op;
    try (apply Hkeep, perform_same_camera; congruence).
  - simpl. unfold start_surveillance. unfold_monad. simpl.
    destruct (surveillance_active (fst st)) eqn:Hact; [split; auto |].
    destruct (VideoCapture_new camera_index) as [cap | exn]; simpl.
    + destruct (isOpened cap) eqn:Hopen; simpl.
      * destruct thread_start as [[] | exn] eqn:Hstart; simpl.
        -- split.
           ++ intros thread [= <-] _. reflexivity.
           ++ intros _. exists cap. repeat split; eauto.
        -- split.
           ++ intros thread _ Habs. congruence.
           ++ intros _. exists cap. repeat split; eauto.
      * split; [exact Hthreads |]. intros Habs. simpl in Habs. congruence.
    + split; [exact Hthreads |]. intros Habs. simpl in Habs. congruence.
  - simpl. unfold stop_surveillance. unfold_monad. simpl.
    destruct (detection_thread (fst st)) as [[[|]] |] eqn:Hthread; simpl;
      destruct (camera_cap (fst st)); simpl;
      (split; [intros thread; simpl; apply Hthreads
              | intros Habs; discriminate Habs]).
Qed.

(** X5: at every moment between operations of an engine that was
    constructed and then used in any way, [surveillance_active] holding
    means that [camera_cap] is a capture object that reported itself
    opened and that a detection thread object was created; and any
    thread object the engine holds has been started, unless starting
    threads fails on this machine (the flag is then set without a
    running thread). *)
Theorem active_engine_has_an_open_camera (w : World) (ops : list operation) :
  camera_ready (fst (run ops (constructed w))).
Proof.
  assert (Hrun : forall ops (st : state),
             camera_ready (fst st) -> camera_ready (fst (run ops st))).
  { clear ops. induction ops as [| op ops IH]; intros st Hst; simpl; [exact Hst |].
    apply IH, perform_camera_ready, Hst. }
  apply Hrun. rewrite constructed_self. split.
  - intros thread Habs. discriminate Habs.
  - intros Habs. discriminate Habs.
Qed.


(** X7: a stopped engine can be started again, and what the start
    answers depends on the thread.  Whatever state the engine was in,
    after [stop_surveillance] a start on a camera that opens stores the
    camera and sets the flag, and a further start is then refused.
    When the detection thread starts, the answer is [True] and the
    thread runs.  When [Thread.start()] raises, the error is printed and
    the answer is [False] although the flag is set and the camera is
    held; the thread object was never started, so the next
    [stop_surveillance] raises in [join()] and leaves the camera
    unreleased. *)
Theorem stopped_engine_restarts (st : state) (camera_index other : Z)
    (cap : VideoCapture) :
  VideoCapture_new camera_index = Ret cap ->
  isOpened cap = true ->
  exists answer st',
    start_surveillance camera_index (snd (stop_surveillance st))
      = (Ret answer, st')
    /\ surveillance_active (fst st') = true
    /\ camera_cap (fst st') = Some cap
    /\ start_surveillance other st' = (Ret false, st')
    /\ match thread_start with
       | Ret _ =>
           answer = true
           /\ detection_thread (fst st') = Some (mkThread true)
           /\ new_events (snd (stop_surveillance st)) st'
                [Call (cv2_VideoCapture camera_index); Call Thread_start]
       | Raise e =>
           answer = false
           /\ detection_thread (fst st') = Some (mkThread false)
           /\ new_events (snd (stop_surveillance st)) st'
                [Call (cv2_VideoCapture camera_index); Call Thread_start;
                 Print ("Error starting surveillance: " ++ e)]
           /\ fst (stop_surveillance st')
              = Raise "RuntimeError: cannot join thread before it is started"
           /\ camera_cap (fst (snd (stop_surveillance st'))) = Some cap
       end.
Proof.
  intros Hnew Hopen. destruct st as [s w].
  unfold stop_surveillance, start_surveillance, new_events. unfold_monad. simpl.
  destruct (detection_thread s) as [[[|]] |], (camera_cap s); simpl;
    rewrite Hnew; simpl; rewrite Hopen; simpl;
    destruct thread_start as [[] | e]; simpl;
    eexists _, _; (split; [reflexivity |]); simpl;
    rewrite <- ?app_assoc; repeat split; reflexivity.
Qed.

(** ** Registration *)

(** X8: neither registration method ever raises, and its answer is
    truthful: it returns [True] exactly when the image loaded and showed
    a face (and then the registry gained that entry), and when it returns
    [False] no attribute of the engine has changed. *)
Theorem registration_answer_is_truthful (name details : string) (st : state) :
  (forall image_path,
      exists st',
        add_suspect image_path name details st
          = (Ret (bool_decide
                    (is_Some (registered (do_add_suspect image_path name details)))),
             st')
        /\ (registered (do_add_suspect image_path name details) = None ->
            fst st' = fst st))
  /\ (forall image_array,
      exists st',
        add_suspect_from_array image_array name details st
          = (Ret (bool_decide
                    (is_Some (registered
                                (do_add_suspect_from_array image_array name details)))),
             st')
        /\ (registered (do_add_suspect_from_array image_array name details) = None ->
            fst st' = fst st)).
Proof.
  split.
  - intros image_path. unfold add_suspect, registered. unfold_monad. simpl.
    destruct (fr_load_image_file image_path) as [image_ | exn]; simpl;
      [| eexists; split; reflexivity].
    destruct (fr_face_encodings image_ None) as [[| enc0 encs] | exn]; simpl;
      eexists; (split; [reflexivity |]); try reflexivity; discriminate.
  - intros image_array. unfold add_suspect_from_array, registered. unfold_monad. simpl.
    destruct (fr_face_encodings image_array None) as [[| enc0 encs] | exn]; simpl;
      eexists; (split; [reflexivity |]); try reflexivity; discriminate.
Qed.

(** ** The alert path *)


(** ** Failures inside [_detect_faces] *)

Lemma _detect_faces_unfold frame (st : state) :
  _detect_faces frame st =
    try_except
      (small_frame <- call cv2_resize (resize_quarter frame) ;;
       face_locations_ <- call face_locations
                               (fr_face_locations (bgr_to_rgb small_frame)) ;;
       face_encodings_ <- call face_encodings
                               (fr_face_encodings (bgr_to_rgb small_frame)
                                                  (Some face_locations_)) ;;
       for_each (zip face_locations_ face_encodings_)
                (fun '(_, face_encoding) => match_face face_encoding frame))
      (fun e => print ("Detection error: " ++ e)) st.
Proof. reflexivity. Qed.

(** X10: when the detector raises (while shrinking the frame, locating
    faces or encoding them) [_detect_faces] reports the error and
    returns; when it finds no face [_detect_faces] returns silently.
    Either way no attribute of the engine changes and nothing but the
    detector is called: the matcher, the image writer, the sound and the
    timer are not touched. *)
Theorem detection_without_faces_changes_nothing (frame : image) (st : state) :
  (exists e, detected_faces frame = Raise e) \/ detected_faces frame = Ret [] ->
  exists st' evs,
    _detect_faces frame st = (Ret tt, st')
    /\ fst st' = fst st
    /\ new_events st st' evs
    /\ Forall (fun e => detector_event e = true) evs
    /\ match detected_faces frame with
       | Raise e => last evs = Some (Print ("Detection error: " ++ e))
       | Ret _ => Forall (fun e => forall msg, e <> Print msg) evs
       end.
Proof.
  intros Hnone. destruct st as [s w].
  rewrite _detect_faces_unfold. unfold detected_faces in *. unfold new_events.
  unfold_monad. simpl.
  destruct (resize_quarter frame) as [small_frame | e1]; simpl.
  2:{ eexists _, [Call cv2_resize; Print _].
      split; [reflexivity |]. simpl. rewrite <- app_assoc.
      repeat split; try reflexivity. repeat constructor. }
  destruct (fr_face_locations (bgr_to_rgb small_frame)) as [locs | e2]; simpl.
  2:{ eexists _, [Call cv2_resize; Call face_locations; Print _].
      split; [reflexivity |]. simpl. rewrite <- !app_assoc.
      repeat split; try reflexivity. repeat constructor. }
  destruct (fr_face_encodings (bgr_to_rgb small_frame) (Some locs))
    as [encs | e3]; simpl.
  2:{ eexists _, [Call cv2_resize; Call face_locations; Call face_encodings; Print _].
      split; [reflexivity |]. simpl. rewrite <- !app_assoc.
      repeat split; try reflexivity. repeat constructor. }
  destruct Hnone as [[e He] | Hempty]; [discriminate |].
  injection Hempty as Hzip. rewrite Hzip. simpl.
  eexists _, [Call cv2_resize; Call face_locations; Call face_encodings].
  split; [reflexivity |]. simpl. rewrite <- !app_assoc.
  repeat split; try reflexivity; repeat constructor; discriminate.
Qed.

(** X11: an exception while matching one face ends the work on the whole
    frame.  When the matcher raises on the first face found,
    [_detect_faces] reports it and returns with the engine unchanged;
    the faces after it are never compared, so none of them can raise an
    alert on this frame. *)
Theorem matcher_failure_skips_the_remaining_faces
    (frame : image) (st : state) loc face_encoding rest (e : string) :
  detected_faces frame = Ret ((loc, face_encoding) :: rest) ->
  fr_compare_faces (known_faces (fst st)) face_encoding = Raise e ->
  _detect_faces frame st =
    (Ret tt,
     (fst st,
      mkWorld (ticks (snd st)) (dirs (snd st)) (files (snd st))
              (trace (snd st) ++
               [Call cv2_resize; Call face_locations; Call face_encodings;
                Call compare_faces; Print ("Detection error: " ++ e)]))).
Proof.
  intros Hfaces Hcmp. destruct st as [s w]. simpl in Hcmp.
  rewrite _detect_faces_unfold. unfold detected_faces in Hfaces.
  unfold match_face. unfold_monad. simpl.
  destruct (resize_quarter frame) as [small_frame | e1]; [| discriminate]. simpl.
  destruct (fr_face_locations (bgr_to_rgb small_frame)) as [locs | e2];
    [| discriminate]. simpl.
  destruct (fr_face_encodings (bgr_to_rgb small_frame) (Some locs))
    as [encs | e3]; [| discriminate]. simpl.
  injection Hfaces as Hzip. rewrite Hzip. simpl.
  unfold_monad. simpl. rewrite Hcmp. simpl.
  unfold log_event. simpl. rewrite <- !app_assoc. reflexivity.
Qed.

(** ** Directories and saving *)

(** One round of the loop of [create_directories]. *)
Lemma ensure_directory (directory : string) (st : state) :
  exists w',
    (w <- get_world ;;
     if negb (path_exists directory w) then os_makedirs directory else ret tt) st
      = (Ret tt, (fst st, w'))
    /\ files w' = files (snd st)
    /\ ticks w' = ticks (snd st)
    /\ dirs (snd st) ⊆ dirs w'
    /\ path_exists directory w' = true
    /\ trace w' = (trace (snd st)
                   ++ if path_exists directory (snd st) then []
                      else [Call (makedirs directory)])%list.
Proof.
  destruct st as [s w]. unfold os_makedirs. unfold_monad. simpl.
  destruct (path_exists directory w) eqn:Hex; simpl.
  - exists w. rewrite app_nil_r. repeat split; auto.
  - eexists. split; [reflexivity |]. simpl.
    repeat split; try reflexivity.
    + set_solver.
    + unfold path_exists. simpl.
      rewrite bool_decide_true by set_solver. reflexivity.
Qed.

Lemma path_exists_mono (p : string) (w w' : World) :
  files w' = files w -> dirs w ⊆ dirs w' ->
  path_exists p w = true -> path_exists p w' = true.
Proof.
  unfold path_exists. intros Hfiles Hdirs. rewrite Hfiles.
  rewrite !orb_true_iff, !bool_decide_eq_true. intros [Hd | Hf]; [left | now right].
  set_solver.
Qed.

Lemma create_directories_spec (st : state) :
  exists w',
    create_directories st = (Ret tt, (fst st, w'))
    /\ files w' = files (snd st)
    /\ ticks w' = ticks (snd st)
    /\ dirs (snd st) ⊆ dirs w'
    /\ Forall (fun d => path_exists d w' = true) directories
    /\ exists evs,
         trace w' = (trace (snd st) ++ evs)%list
         /\ Forall (fun e => exists d, e = Call (makedirs d)) evs
         /\ (Forall (fun d => path_exists d (snd st) = true) directories ->
             evs = []).
Proof.
  unfold create_directories, directories. simpl.
  destruct (ensure_directory "suspects" st)
    as (w1 & Hrun1 & Hf1 & Hk1 & Hd1 & He1 & Ht1).
  destruct (ensure_directory "alerts" (fst st, w1))
    as (w2 & Hrun2 & Hf2 & Hk2 & Hd2 & He2 & Ht2).
  destruct (ensure_directory "logs" (fst st, w2))
    as (w3 & Hrun3 & Hf3 & Hk3 & Hd3 & He3 & Ht3).
  simpl in *.
  exists w3. split.
  { unfold bind at 1. rewrite Hrun1. unfold bind at 1. rewrite Hrun2.
    unfold bind at 1. rewrite Hrun3. reflexivity. }
  split; [congruence |]. split; [congruence |].
  split; [set_solver |].
  split.
  { repeat constructor.
    - apply (path_exists_mono _ w1); [congruence | set_solver | exact He1].
    - apply (path_exists_mono _ w2); [congruence | set_solver | exact He2].
    - exact He3. }
  eexists. split; [rewrite Ht3, Ht2, Ht1, <- !app_assoc; reflexivity |].
  split.
  - repeat (apply Forall_app; split);
      match goal with
      | |- context [if ?b then _ else _] => destruct b
      end; repeat constructor; eauto.
  - intros Hall. apply Forall_cons in Hall as [Ha Hall].
    apply Forall_cons in Hall as [Hb Hall]. apply Forall_cons in Hall as [Hc _].
    rewrite Ha.
    rewrite (path_exists_mono "alerts" (snd st) w1) by (assumption || congruence).
    rewrite (path_exists_mono "logs" (snd st) w2)
      by (try assumption; try congruence; set_solver).
    reflexivity.
Qed.

Lemma made_directories_app (evs evs' : list event) :
  made_directories (evs ++ evs') = (made_directories evs ++ made_directories evs')%list.
Proof. unfold made_directories. apply omap_app. Qed.

(** The constructor, up to [create_directories]. *)
Lemma constructed_world (w0 : World) :
  exists w1 head,
    constructed w0 = snd (create_directories (fresh, w1))
    /\ files w1 = files w0 /\ dirs w1 = dirs w0
    /\ trace w1 = (trace w0 ++ head)%list
    /\ made_directories head = []
    /\ Forall (fun e => e = Call mixer_init
                        \/ e = Print "Audio system not available") head.
Proof.
  unfold constructed, __init__. unfold_monad. simpl.
  destruct pygame_mixer_init as [[] | exn]; simpl.
  - eexists _, [Call mixer_init]. split; [reflexivity |]. simpl.
    repeat split; try reflexivity. repeat constructor.
  - eexists _, [Call mixer_init; Print _]. split; [reflexivity |]. simpl.
    rewrite <- app_assoc. repeat split; try reflexivity.
    constructor; [now left |]. constructor; [now right | constructor].
Qed.

(** X12: constructing an engine makes sure of the three directories and
    of nothing else: afterwards [suspects], [alerts] and [logs] each
    exist, every directory and every file that existed is still there,
    [makedirs] is the only file-system call made, and constructing a
    second engine in the world the first one left makes no directory at
    all. *)
Theorem construction_ensures_the_directories (w : World) :
  let st := constructed w in
  fst st = fresh
  /\ Forall (fun d => path_exists d (snd st) = true) directories
  /\ files (snd st) = files w
  /\ dirs w ⊆ dirs (snd st)
  /\ (exists evs, trace (snd st) = (trace w ++ evs)%list
                  /\ Forall (fun e => (exists d, e = Call (makedirs d))
                                      \/ e = Call mixer_init
                                      \/ e = Print "Audio system not available") evs)
  /\ made_directories (trace (snd (constructed (snd st))))
     = made_directories (trace (snd st)).
Proof.
  intros st. subst st.
  destruct (constructed_world w) as (w1 & head & Hc & Hf1 & Hd1 & Ht1 & Hm1 & Hh1).
  destruct (create_directories_spec (fresh, w1))
    as (w2 & Hrun & Hf2 & _ & Hd2 & Hex & evs & Ht2 & Hmk & _).
  simpl in *. rewrite Hc, Hrun. simpl.
  split; [reflexivity |]. split; [exact Hex |].
  split; [congruence |]. split; [rewrite <- Hd1; exact Hd2 |].
  split.
  { exists (head ++ evs)%list. split; [rewrite Ht2, Ht1; now rewrite app_assoc |].
    apply Forall_app. split.
    - eapply Forall_impl; [exact Hh1 |]. intros e [-> | ->]; auto.
    - eapply Forall_impl; [exact Hmk |]. intros e He. now left. }
  destruct (constructed_world w2) as (w3 & head' & Hc' & Hf3 & Hd3 & Ht3 & Hm3 & _).
  destruct (create_directories_spec (fresh, w3))
    as (w4 & Hrun' & _ & _ & _ & _ & evs' & Ht4 & _ & Hnone).
  simpl in *. rewrite Hc', Hrun'. simpl.
  rewrite Ht4, Ht3. rewrite Hnone.
  - rewrite app_nil_r, made_directories_app, Hm3. now rewrite app_nil_r.
  - eapply Forall_impl; [exact Hex |]. intros d Hd.
    apply (path_exists_mono d w2); [congruence | now rewrite Hd3 | exact Hd].
Qed.

(** X13: [save_logs] returns a path exactly when the [logs] directory
    exists; when it does not, the call raises and has written nothing:
    the files are as before and no attribute of the engine changed. *)
Theorem save_logs_needs_the_logs_directory (st : state) :
  ((exists log_file st', save_logs st = (Ret log_file, st'))
   <-> "logs" ∈ dirs (snd st))
  /\ ("logs" ∉ dirs (snd st) ->
      exists e st',
        save_logs st = (Raise e, st')
        /\ fst st' = fst st
        /\ files (snd st') = files (snd st)
        /\ dirs (snd st') = dirs (snd st)).
Proof.
  unfold save_logs, write_file. unfold_monad. simpl.
  destruct (decide ("logs" ∈ dirs (snd st))) as [Hin | Hout].
  - rewrite bool_decide_true by exact Hin. simpl.
    split; [| contradiction].
    split; [auto |]. intros _. eexists _, _. reflexivity.
  - rewrite bool_decide_false by exact Hout. simpl.
    split.
    + split; [| contradiction]. intros (p & st' & Habs). discriminate Habs.
    + intros _. eexists _, _. split; [reflexivity |]. now repeat split.
Qed.

(** X14: a newly constructed engine can save at once, provided no file
    called [logs] stands where the directory should be: [save_logs]
    returns a path under [logs/] and the file there holds the dump of the
    empty alert log. *)
Theorem fresh_engine_saves_an_empty_log (w : World) :
  files w !! "logs" = None ->
  exists log_file st',
    save_logs (constructed w) = (Ret log_file, st')
    /\ files (snd st') !! log_file = Some (json_dump [])
    /\ alert_log (fst st') = [].
Proof.
  intros Hnofile.
  assert (Hlogs : "logs" ∈ dirs (snd (constructed w))
                  /\ fst (constructed w) = fresh).
  { destruct (constructed_world w) as (w1 & head & Hc & Hf1 & _).
    destruct (create_directories_spec (fresh, w1))
      as (w' & Hrun & Hfiles & _ & _ & Hex & _).
    rewrite Hc, Hrun. simpl in *. split; [| reflexivity].
    apply Forall_cons in Hex as [_ Hex]. apply Forall_cons in Hex as [_ Hex].
    apply Forall_cons in Hex as [Hex _].
    unfold path_exists in Hex. rewrite Hfiles, Hf1, Hnofile in Hex.
    apply orb_true_iff in Hex as [Hex | Hex].
    - now apply bool_decide_eq_true in Hex.
    - apply bool_decide_eq_true in Hex. now destruct Hex. }
  destruct Hlogs as [Hlogs Hfresh].
  unfold save_logs, write_file. unfold_monad. simpl.
  rewrite bool_decide_true by exact Hlogs. simpl.
  eexists _, _. split; [reflexivity |]. simpl.
  rewrite lookup_insert_eq, Hfresh. split; reflexivity.
Qed.

End EngineProperties.

(** * The interface *)

Section InterfaceProperties.

Context {image encoding datetime text card : Type}.
Context {caps : @Capabilities image encoding datetime text}.
Context {pres : @Presentation image card}.

Local Abbreviation PoliceAISystem := (@PoliceAISystem image encoding).
Local Abbreviation World := (@World text).
Local Abbreviation state := (@state image encoding text).
Local Abbreviation M := (@M image encoding text).
Local Abbreviation Page := (@Page card).
Local Abbreviation UI := (@UI image encoding text card).

Ltac unfold_monad :=
  unfold call, print, emit, lift, get_self, get_world, modify_self,
    modify_world, datetime_now, try_except, bind, ret, raise in *.

Ltac unfold_ui :=
  unfold show_success, show_error, show_snack_bar, update_suspects_count,
    page_update, engine, get_page, modify_page in *;
  unfold_monad.

(** ** What the engine's methods do to the attributes the page shows *)

Lemma add_suspect_cases image_path name details (st : state) :
  exists (added : bool) st',
    add_suspect image_path name details st = (Ret added, st')
    /\ same_camera (fst st) (fst st')
    /\ (if added
        then known_names (fst st') = (known_names (fst st) ++ [name])%list
        else fst st' = fst st).
Proof.
  unfold add_suspect. unfold_monad. simpl.
  destruct (fr_load_image_file image_path) as [image_ | exn]; simpl;
    [| exists false; eexists; repeat split; reflexivity].
  destruct (fr_face_encodings image_ None) as [[| enc0 encs] | exn]; simpl.
  - exists false. eexists. repeat split; reflexivity.
  - exists true. eexists. repeat split; reflexivity.
  - exists false. eexists. repeat split; reflexivity.
Qed.

Lemma start_surveillance_cases camera_index (st : state) :
  exists (answer : bool) st',
    start_surveillance camera_index st = (Ret answer, st')
    /\ same_registry (fst st) (fst st')
    /\ (threads_started (fst st) -> threads_started (fst st'))
    /\ (thread_start = Ret tt ->
        if answer
        then surveillance_active (fst st) = false
             /\ surveillance_active (fst st') = true
        else surveillance_active (fst st') = surveillance_active (fst st)).
Proof.
  unfold start_surveillance. unfold_monad. simpl.
  destruct (surveillance_active (fst st)) eqn:Hact.
  - exists false, st. split; [reflexivity |].
    split; [apply same_registry_refl |]. split; [auto | simpl; congruence].
  - destruct (VideoCapture_new camera_index) as [cap | exn]; simpl.
    + destruct (isOpened cap); simpl.
      * destruct thread_start as [[] | exn] eqn:Hstart; simpl.
        -- exists true. eexists. split; [reflexivity |].
           split; [now repeat split |]. split; [| now split].
           intros _ thread [= <-] _. reflexivity.
        -- exists false. eexists. split; [reflexivity |].
           split; [now repeat split |]. split; [| discriminate].
           intros _ thread _ Habs. congruence.
      * exists false. eexists. split; [reflexivity |].
        split; [now repeat split |]. split; [auto | simpl; congruence].
    + exists false. eexists. split; [reflexivity |].
      split; [now repeat split |]. split; [auto | simpl; congruence].
Qed.

Lemma stop_surveillance_cases (st : state) :
  exists o st',
    stop_surveillance st = (o, st')
    /\ same_registry (fst st) (fst st')
    /\ surveillance_active (fst st') = false
    /\ detection_thread (fst st') = detection_thread (fst st)
    /\ (threads_started (fst st) -> thread_start = Ret tt -> o = Ret tt).
Proof.
  unfold stop_surveillance. unfold_monad. simpl.
  destruct (detection_thread (fst st)) as [[[|]] |] eqn:Hthread; simpl;
    destruct (camera_cap (fst st)); simpl;
    eexists _, _; (split; [reflexivity |]); simpl;
    (split; [now repeat split |]); (split; [reflexivity |]);
    (split; [now rewrite ?Hthread |]);
    try reflexivity;
    intros Hthreads Hstart; specialize (Hthreads _ Hthread Hstart);
    discriminate Hthreads.
Qed.

Lemma save_logs_self (st : state) :
  fst (snd (save_logs st)) = fst st.
Proof.
  unfold save_logs, write_file. unfold_monad. simpl.
  destruct (bool_decide ("logs" ∈ dirs (snd st))); reflexivity.
Qed.

Lemma get_current_frame_base64_self (st : state) :
  exists o, fst (get_current_frame_base64 st) = Ret o
            /\ fst (snd (get_current_frame_base64 st)) = fst st.
Proof.
  unfold get_current_frame_base64. unfold_monad. simpl.
  destruct (current_frame (fst st)) as [frame |]; [| now exists None].
  destruct (frame_to_base64 frame) as [b | exn]; simpl; eauto.
Qed.

Lemma surveillance_loop_shown reads (st : state) :
  same_camera (fst st) (fst (snd (_surveillance_loop reads st)))
  /\ same_registry (fst st) (fst (snd (_surveillance_loop reads st))).
Proof.
  split.
  - apply on_self_same_camera_loop.
  - destruct (alerts_only__surveillance_loop reads st)
      as (o & st' & new & -> & Hreg & _).
    exact Hreg.
Qed.

(** ** The page follows the engine *)



(** ** What the form registers *)

Lemma act_names (a : action) (x : state * Page) :
  known_names (fst (fst (snd (act a x)))) = known_names (fst (fst x))
  \/ exists name, name <> ""
       /\ known_names (fst (fst (snd (act a x))))
          = (known_names (fst (fst x)) ++ [name])%list.
Proof.
  destruct x as [st pg].
  destruct a; simpl; try (left; reflexivity).
  - left. unfold on_file_picked. destruct files_; reflexivity.
  - left. unfold click_start_surveillance. unfold_ui. simpl.
    destruct (start_surveillance_cases 0 st) as (started & st' & -> & (_ & Hn & _) & _).
    destruct started; exact Hn.
  - left. unfold click_stop_surveillance. unfold_ui. simpl.
    destruct (stop_surveillance_cases st) as (o & st' & -> & (_ & Hn & _) & _).
    destruct o as [[] | exn]; exact Hn.
  - unfold click_add_suspect. unfold_ui. simpl.
    destruct (String.eqb (suspect_name_field pg) "") eqn:Hname; simpl;
      [left; reflexivity |].
    destruct (no_path (selected_image_path pg).2); simpl; [left; reflexivity |].
    match goal with
    | |- context [add_suspect ?p ?n ?d st] =>
        destruct (add_suspect_cases p n d st) as (added & st' & -> & _ & Hnames)
    end.
    destruct added; simpl.
    + right. eexists. split; [| exact Hnames].
      now apply String.eqb_neq.
    + left. now rewrite Hnames.
  - left. unfold click_save_logs. unfold_ui. simpl.
    pose proof (save_logs_self st) as Hself.
    destruct (save_logs st) as [[log_file | exn] st']; simpl in *; now rewrite Hself.
  - left. unfold update_live_feed_round. unfold_ui. simpl.
    destruct (surveillance_active (fst st)); [| reflexivity].
    cbn [fst snd].
    destruct (get_current_frame_base64_self st) as (o & Ho & Hself).
    destruct (get_current_frame_base64 st) as [o' st']. simpl in *. subst o'.
    destruct o as [b |]; simpl; [destruct (String.eqb b ""); simpl |];
      now rewrite Hself.
  - left. unfold periodic_update_round. unfold_ui. simpl.
    destruct (bool_decide (length (alert_log_list pg) < length (alert_log (fst st))));
      [| reflexivity].
    unfold update_alert_log. unfold_ui. simpl.
    match goal with
    | |- context [for_each_ui ?xs ?body ?x0] =>
        assert (Hloop : forall ys (x1 : state * Page),
                   fst (snd (for_each_ui ys body x1)) = fst x1);
        [| specialize (Hloop xs x0);
           destruct (for_each_ui xs body x0) as [[[] | exn] x2]; simpl in *;
           now rewrite Hloop ]
    end.
    clear. induction ys as [| alert ys IH]; intros x1; simpl; [reflexivity |].
    unfold bind at 1. unfold_monad.
    destruct (alert_tile alert) as [tile | exn]; simpl; [| reflexivity].
    now rewrite IH.
  - left. unfold_ui. cbn [fst snd].
    destruct (surveillance_loop_shown reads st) as (_ & (_ & Hn & _)).
    destruct (_surveillance_loop reads st) as [o st']. exact Hn.
Qed.

(** X17: the form never registers a nameless suspect.  Whatever is
    typed, picked and pressed, every name in the registry of the running
    application is a non-empty string: the add button refuses an empty
    name field before the engine is asked. *)
Theorem form_registers_no_nameless_suspect (w : World) (actions : list action) :
  Forall (fun name => name <> "")
         (known_names (fst (fst (use actions (launched w))))).
Proof.
  assert (Huse : forall actions (x : state * Page),
             Forall (fun name => name <> "") (known_names (fst (fst x))) ->
             Forall (fun name => name <> "")
                    (known_names (fst (fst (use actions x))))).
  { clear actions. induction actions as [| a actions IH]; intros x Hx; simpl;
      [exact Hx |].
    apply IH. destruct (act_names a x) as [-> | (name & Hname & ->)];
      [exact Hx |].
    apply Forall_app. split; [exact Hx |]. now constructor. }
  apply Huse. unfold launched. simpl. rewrite constructed_self. simpl. constructor.
Qed.

(** ** The alert list of the page *)

Lemma for_each_ui_tiles (ys : list alert_data) : forall (x : state * Page),
  let r := for_each_ui ys (fun alert =>
             tile <- lift (alert_tile alert) ;;
             modify_page (fun pg => set_alert_log_list (alert_log_list pg ++ [tile]) pg))
           x in
  fst (snd r) = fst x
  /\ exists tiles,
       alert_log_list (snd (snd r)) = (alert_log_list (snd x) ++ tiles)%list
       /\ Forall2 (fun alert tile => alert_tile alert = Ret tile)
                  (take (length tiles) ys) tiles
       /\ length tiles <= length ys
       /\ (fst r = Ret tt -> length tiles = length ys)
       /\ overlay (snd (snd r)) = overlay (snd x)
       /\ feed_threads (snd (snd r)) = feed_threads (snd x).
Proof.
  induction ys as [| alert ys IH]; intros x; simpl.
  - split; [reflexivity |]. exists []. rewrite app_nil_r.
    repeat split; auto.
  - unfold bind at 1. unfold_monad.
    destruct (alert_tile alert) as [tile | exn] eqn:Htile; simpl.
    + destruct (IH (fst x, set_alert_log_list (alert_log_list (snd x) ++ [tile]) (snd x)))
        as (Hst & tiles & Hlist & Hall & Hlen & Hret & Hov & Hft).
      simpl in *. split; [exact Hst |].
      exists (tile :: tiles). rewrite Hlist, <- app_assoc. simpl.
      repeat split; auto; try lia.
    + split; [reflexivity |]. exists []. rewrite app_nil_r. simpl.
      repeat split; auto; try lia; discriminate.
Qed.

Lemma length_last_ten {A} (l : list A) : length (last_ten l) = min 10 (length l).
Proof. unfold last_ten. rewrite length_drop. lia. Qed.

Lemma update_alert_log_spec (x : state * Page) :
  let r := update_alert_log x in
  fst (snd r) = fst x
  /\ exists tiles,
       alert_log_list (snd (snd r)) = tiles
       /\ Forall2 (fun alert tile => alert_tile alert = Ret tile)
                  (take (length tiles) (reverse (last_ten (alert_log (fst (fst x))))))
                  tiles
       /\ length tiles <= min 10 (length (alert_log (fst (fst x))))
       /\ (fst r = Ret tt ->
           length tiles = min 10 (length (alert_log (fst (fst x)))))
       /\ overlay (snd (snd r)) = overlay (snd x)
       /\ feed_threads (snd (snd r)) = feed_threads (snd x).
Proof.
  pose proof (for_each_ui_tiles (reverse (last_ten (alert_log (fst (fst x)))))
                (fst x, set_alert_log_list [] (snd x))) as Hloop.
  cbv zeta in Hloop.
  destruct Hloop as (Hst & tiles & Hlist & Hall & Hlen & Hret & Hov & Hft).
  rewrite length_reverse, length_last_ten in Hlen, Hret.
  unfold update_alert_log. unfold_ui. simpl in *.
  match goal with
  | |- context [for_each_ui ?ys ?body ?x0] =>
      destruct (for_each_ui ys body x0) as [[[] | exn] x2]
  end; simpl in *.
  - split; [exact Hst |]. exists tiles. repeat split; auto.
  - split; [exact Hst |]. exists tiles. repeat split; auto; discriminate.
Qed.

Lemma act_alert_list (a : action) (x : state * Page) :
  length (alert_log_list (snd x)) <= 10 ->
  length (alert_log_list (snd (snd (act a x)))) <= 10.
Proof.
  intros Hx. destruct x as [st pg].
  destruct a; simpl in *; try exact Hx.
  - unfold on_file_picked. destruct files_; exact Hx.
  - unfold click_start_surveillance. unfold_ui. simpl.
    destruct (start_surveillance 0 st) as [[[] | exn] st']; exact Hx.
  - unfold click_stop_surveillance. unfold_ui. simpl.
    destruct (stop_surveillance st) as [[[] | exn] st']; exact Hx.
  - unfold click_add_suspect. unfold_ui. simpl.
    destruct (String.eqb (suspect_name_field pg) "" || no_path (selected_image_path pg).2);
      simpl; [exact Hx |].
    match goal with
    | |- context [add_suspect ?p ?n ?d st] =>
        destruct (add_suspect p n d st) as [[[] | exn] st']
    end; exact Hx.
  - unfold click_save_logs. unfold_ui. simpl.
    destruct (save_logs st) as [[log_file | exn] st']; exact Hx.
  - unfold update_live_feed_round. unfold_ui. simpl.
    destruct (surveillance_active (fst st)); [| exact Hx].
    cbn [fst snd].
    destruct (get_current_frame_base64 st) as [[[b |] | exn] st']; simpl;
      [destruct (String.eqb b "") | |]; exact Hx.
  - unfold periodic_update_round. unfold_ui. simpl.
    destruct (bool_decide (length (alert_log_list pg) < length (alert_log (fst st))));
      [| exact Hx].
    destruct (update_alert_log_spec (st, pg)) as (_ & tiles & -> & _ & Hlen & _).
    lia.
  - unfold_ui. cbn [fst snd].
    destruct (_surveillance_loop reads st) as [o st']. exact Hx.
Qed.

Lemma use_alert_list (actions : list action) : forall (x : state * Page),
  length (alert_log_list (snd x)) <= 10 ->
  length (alert_log_list (snd (use actions x))) <= 10.
Proof.
  induction actions as [| a actions IH]; intros x Hx; simpl; [exact Hx |].
  apply IH, act_alert_list, Hx.
Qed.



(** X18: the page never lists more than ten alerts, whatever happens
    while the application runs and however long the engine's log has
    grown. *)
Theorem page_lists_at_most_ten_alerts (w : World) (actions : list action) :
  length (alert_log_list (snd (use actions (launched w)))) <= 10.
Proof.
  apply use_alert_list. simpl. lia.
Qed.

(** X19: once more than ten alerts are logged, every round of the
    periodic update redraws the whole list: its test compares the length
    of the log with the number of cards shown, and that number never
    exceeds ten. *)
Theorem poll_redraws_every_round_past_ten_alerts
    (w : World) (actions : list action) :
  10 < length (alert_log (fst (fst (use actions (launched w))))) ->
  periodic_update_round (use actions (launched w))
  = update_alert_log (use actions (launched w)).
Proof.
  intros Hlog.
  pose proof (use_alert_list actions (launched w)) as Hshown.
  specialize (Hshown ltac:(simpl; lia)).
  destruct (use actions (launched w)) as [st pg]. simpl in *.
  unfold periodic_update_round. unfold_ui. simpl.
  rewrite bool_decide_true by lia. reflexivity.
Qed.

(** X20: when the redraw of the alert list succeeds, the page shows the
    ten most recent alerts of the log (all of them when there are fewer),
    the newest first: the card at position [k] is the card of the alert
    [k] places before the end of the log.  The engine is not touched. *)
Theorem alert_list_shows_the_newest_first (x : state * Page) :
  fst (update_alert_log x) = Ret tt ->
  let log := alert_log (fst (fst x)) in
  let shown := alert_log_list (snd (snd (update_alert_log x))) in
  fst (snd (update_alert_log x)) = fst x
  /\ length shown = min 10 (length log)
  /\ forall k tile, shown !! k = Some tile ->
       exists alert, log !! (length log - 1 - k) = Some alert
                     /\ alert_tile alert = Ret tile.
Proof.
  intros Hret log shown.
  destruct (update_alert_log_spec x) as (Hst & tiles & Hlist & Hall & _ & Hlen & _).
  specialize (Hlen Hret). fold log in Hall, Hlen. fold shown in Hlist.
  subst tiles. split; [exact Hst |]. split; [exact Hlen |].
  intros k tile Hk.
  destruct (Forall2_lookup_r _ _ _ _ _ Hall Hk) as (alert & Halert & Htile).
  exists alert. split; [| exact Htile].
  apply lookup_take_Some in Halert as [Halert Hlt].
  rewrite reverse_lookup in Halert
    by (rewrite length_last_ten; lia).
  unfold last_ten in Halert. rewrite lookup_drop, length_drop in Halert.
  rewrite <- Halert. f_equal. lia.
Qed.

(** ** The live feed *)

(** X21: [get_current_frame_base64] never raises and never touches the
    engine, the directories or the files.  It answers a string exactly
    when a frame is held and the conversion of that frame succeeds, and
    the string is then the one the conversion gave; without a frame, or
    when the conversion raises, it answers [None]. *)
Theorem frame_base64_answers_none_on_failure (st : state) :
  exists answer st',
    get_current_frame_base64 st = (Ret answer, st')
    /\ fst st' = fst st
    /\ dirs (snd st') = dirs (snd st)
    /\ files (snd st') = files (snd st)
    /\ forall b, answer = Some b
         <-> exists frame, current_frame (fst st) = Some frame
                           /\ frame_to_base64 frame = Ret b.
Proof.
  unfold get_current_frame_base64. unfold_monad.
  destruct (current_frame (fst st)) as [frame |] eqn:Hframe; simpl.
  - destruct (frame_to_base64 frame) as [b | exn] eqn:Hconv; simpl.
    + eexists _, _. split; [reflexivity |]. repeat split; auto.
      * intros [= <-]. exists frame. auto.
      * intros (frame' & [= <-] & Hb). congruence.
    + eexists _, _. split; [reflexivity |]. repeat split; auto.
      * discriminate.
      * intros (frame' & [= <-] & Hb). congruence.
  - eexists _, _. split; [reflexivity |]. repeat split; auto.
    + discriminate.
    + intros (frame' & Habs & _). discriminate.
Qed.

(** X22: a round of the live-feed thread never raises, so the thread
    never ends; it never touches the engine; and it leaves the page as it
    is unless surveillance is active and a frame is held.  When it does
    show a frame, the alert banner it writes is the engine's alert flag
    at that moment. *)
Theorem feed_round_never_raises (x : state * Page) :
  let r := update_live_feed_round x in
  fst r = Ret tt
  /\ fst (fst (snd r)) = fst (fst x)
  /\ (surveillance_active (fst (fst x)) = false
      \/ current_frame (fst (fst x)) = None -> snd (snd r) = snd x)
  /\ (live_feed_src_base64 (snd (snd r)) <> live_feed_src_base64 (snd x) ->
      alert_status (snd (snd r))
      = if alert_active (fst (fst x))
        then ("🚨 SUSPECT DETECTED! 🚨", RED) else ("Monitoring...", GREEN)).
Proof.
  destruct x as [st pg]. unfold update_live_feed_round. unfold_ui. simpl.
  destruct (surveillance_active (fst st)) eqn:Hactive; simpl.
  2: { repeat split; auto; congruence. }
  unfold get_current_frame_base64. unfold_monad.
  destruct (current_frame (fst st)) as [frame |] eqn:Hframe; simpl.
  2: { repeat split; auto; congruence. }
  destruct (frame_to_base64 frame) as [b | exn]; simpl.
  2: { repeat split; auto; try (intros [|]; congruence); congruence. }
  destruct (String.eqb b ""); simpl;
    repeat split; auto; try (intros [|]; congruence); congruence.
Qed.

(** ** The save button *)

(** X23: the save button always answers with exactly one snack bar and
    never raises.  The bar is green and names the file written when the
    [logs] directory exists; otherwise it is red and carries the error
    of the failed write.  The engine is not changed either way. *)
Theorem save_click_always_answers (x : state * Page) :
  let r := click_save_logs x in
  fst r = Ret tt
  /\ fst (fst (snd r)) = fst (fst x)
  /\ exists message bgcolor,
       overlay (snd (snd r)) = (overlay (snd x) ++ [SnackBar message bgcolor])%list
       /\ if bool_decide ("logs" ∈ dirs (snd (fst x)))
          then bgcolor = GREEN
               /\ exists log_file,
                    message = "Logs saved to " ++ log_file
                    /\ files (snd (fst (snd r))) !! log_file
                       = Some (json_dump (alert_log (fst (fst x))))
          else bgcolor = RED
               /\ (exists exn, message = "Failed to save logs: " ++ exn)
               /\ files (snd (fst (snd r))) = files (snd (fst x)).
Proof.
  destruct x as [st pg]. unfold click_save_logs, save_logs, write_file.
  unfold_ui. simpl.
  destruct (bool_decide ("logs" ∈ dirs (snd st))); simpl.
  - repeat split. eexists _, _. split; [reflexivity |].
    split; [reflexivity |]. eexists. split; [reflexivity |].
    apply lookup_insert_eq.
  - repeat split. eexists _, _. split; [reflexivity |].
    split; [reflexivity |]. split; [eexists; reflexivity | reflexivity].
Qed.

(** ** The feed threads *)

Lemma press_start_idle (x : state * Page) (cap : VideoCapture) :
  VideoCapture_new 0 = Ret cap -> isOpened cap = true ->
  thread_start = Ret tt ->
  surveillance_active (fst (fst x)) = false ->
  surveillance_active (fst (fst (snd (click_start_surveillance x)))) = true
  /\ threads_started (fst (fst (snd (click_start_surveillance x))))
  /\ feed_threads (snd (snd (click_start_surveillance x))) = S (feed_threads (snd x)).
Proof.
  intros Hnew Hopen Hstart Hidle. destruct x as [st pg].
  unfold click_start_surveillance, start_surveillance. unfold_ui. simpl in *.
  rewrite Hidle, Hnew. simpl. rewrite Hopen. simpl. rewrite Hstart. simpl.
  repeat split. intros thread [= <-] _. reflexivity.
Qed.

Lemma press_stop_started (x : state * Page) :
  thread_start = Ret tt ->
  threads_started (fst (fst x)) ->
  surveillance_active (fst (fst (snd (click_stop_surveillance x)))) = false
  /\ feed_threads (snd (snd (click_stop_surveillance x))) = feed_threads (snd x).
Proof.
  intros Hstart Hthreads. destruct x as [st pg].
  unfold click_stop_surveillance. unfold_ui. simpl.
  destruct (stop_surveillance_cases st) as (o & st' & -> & _ & Hact & _ & Hret).
  rewrite (Hret Hthreads Hstart). auto.
Qed.

(** X24: every successful start launches one more live-feed thread and
    stopping ends none: with a camera that opens and a detection thread
    that starts, [n] rounds of pressing start and then stop leave the
    engine stopped and have launched [n] feed threads. *)
Theorem every_start_launches_a_feed_thread
    (w : World) (cap : VideoCapture) (n : nat) :
  VideoCapture_new 0 = Ret cap -> isOpened cap = true ->
  thread_start = Ret tt ->
  let x := use (concat (replicate n [press_start; press_stop])) (launched w) in
  feed_threads (snd x) = n /\ surveillance_active (fst (fst x)) = false.
Proof.
  intros Hnew Hopen Hstart.
  assert (Hrounds : forall n (x : state * Page),
             surveillance_active (fst (fst x)) = false ->
             let x' := use (concat (replicate n [press_start; press_stop])) x in
             feed_threads (snd x') = feed_threads (snd x) + n
             /\ surveillance_active (fst (fst x')) = false).
  { clear n. induction n as [| n IH]; intros x Hidle; simpl.
    - split; [lia | exact Hidle].
    - destruct (press_start_idle x cap Hnew Hopen Hstart Hidle)
        as (_ & Hthreads & Hstarted).
      destruct (press_stop_started (snd (click_start_surveillance x))
                  Hstart Hthreads) as [Hstopped Hsame].
      destruct (IH _ Hstopped) as [Hfeeds Hoff]. cbv zeta in *.
      split; [| exact Hoff].
      rewrite Hfeeds, Hsame, Hstarted. lia. }
  destruct (Hrounds n (launched w)) as [Hfeeds Hoff].
  { unfold launched. simpl. now rewrite constructed_self. }
  cbv zeta. split; [| exact Hoff]. rewrite Hfeeds. reflexivity.
Qed.

End InterfaceProperties.

(** ** The properties at the demonstration *)

Lemma surveillance_loop_publishes_last_frame_witness :
  exists st' evs,
    _surveillance_loop (caps := Demo.caps)
       [Some [0.9%float]; None; Some []] (Demo.watching, Demo.empty_world)
      = (Ret tt, st')
    /\ new_events (Demo.watching, Demo.empty_world) st' evs
    /\ length (List.filter is_read evs) = 3
    /\ length (List.filter is_sleep evs) = 2
    /\ current_frame (fst st') = Some []
    /\ same_camera Demo.watching (fst st').
Proof.
  apply (surveillance_loop_publishes_last_frame (caps := Demo.caps)
           [Some [0.9%float]; None; Some []] (Demo.watching, Demo.empty_world));
    [reflexivity | eexists; reflexivity].
Defined.

Lemma stopped_engine_restarts_witness :
  exists answer st',
    start_surveillance (caps := Demo.caps) 0
      (snd (stop_surveillance (Demo.watching, Demo.empty_world)))
      = (Ret answer, st')
    /\ surveillance_active (fst st') = true
    /\ camera_cap (fst st') = Some (mkVideoCapture 0 true)
    /\ start_surveillance (caps := Demo.caps) 1 st' = (Ret false, st')
    /\ answer = true
    /\ detection_thread (fst st') = Some (mkThread true)
    /\ new_events
         (snd (stop_surveillance (Demo.watching, Demo.empty_world)))
         st' [Call (cv2_VideoCapture 0); Call Thread_start].
Proof.
  apply (stopped_engine_restarts (caps := Demo.caps)
           (Demo.watching, Demo.empty_world) 0 1 (mkVideoCapture 0 true));
    reflexivity.
Defined.

(** On a machine that cannot start a thread, the start answers [False]
    with the flag set; the page then shows surveillance as off with the
    start button enabled, pressing start again is refused, and [stop]
    raises with the camera still held. *)
Example failed_thread_start :
  let x := use (caps := DemoNoThreads.caps) (pres := DemoUI.pres)
               [press_start]
               (launched (caps := DemoNoThreads.caps) Demo.empty_world) in
  surveillance_active (fst (fst x)) = true
  /\ detection_thread (fst (fst x)) = Some (mkThread false)
  /\ start_btn_disabled (snd x) = false
  /\ surveillance_status (snd x) = ("Surveillance: OFF", RED)
  /\ fst (start_surveillance (caps := DemoNoThreads.caps) 0 (fst x)) = Ret false
  /\ fst (stop_surveillance (fst x))
     = Raise "RuntimeError: cannot join thread before it is started"
  /\ camera_cap (fst (snd (stop_surveillance (fst x))))
     = Some (mkVideoCapture 0 true).
Proof. vm_compute. repeat split; reflexivity. Qed.


Lemma detection_without_faces_changes_nothing_witness :
  exists st' evs,
    _detect_faces (caps := Demo.caps) [] (Demo.engine 0.6, Demo.empty_world)
      = (Ret tt, st')
    /\ fst st' = Demo.engine 0.6
    /\ new_events (Demo.engine 0.6, Demo.empty_world) st' evs
    /\ Forall (fun e => detector_event e = true) evs
    /\ Forall (fun e => forall msg, e <> Print msg) evs.
Proof.
  apply (detection_without_faces_changes_nothing (caps := Demo.caps)
           [] (Demo.engine 0.6, Demo.empty_world)).
  right. reflexivity.
Defined.

Lemma matcher_failure_skips_the_remaining_faces_witness :
  _detect_faces (caps := DemoFailing.caps) [0.4%float; 0.1%float]
                (Demo.engine 0.6, Demo.empty_world)
  = (Ret tt,
     (Demo.engine 0.6,
      mkWorld 0 ∅ ∅
              [Call cv2_resize; Call face_locations; Call face_encodings;
               Call compare_faces; Print "Detection error: ValueError"])).
Proof.
  apply (matcher_failure_skips_the_remaining_faces (caps := DemoFailing.caps)
           [0.4%float; 0.1%float] (Demo.engine 0.6, Demo.empty_world)
           (0, 0, 0, 0)%Z 0.4%float [((0, 0, 0, 0)%Z, 0.1%float)] "ValueError");
    reflexivity.
Defined.

Lemma fresh_engine_saves_an_empty_log_witness :
  exists log_file st',
    save_logs (caps := Demo.caps) (constructed (caps := Demo.caps) Demo.empty_world)
      = (Ret log_file, st')
    /\ files (snd st') !! log_file = Some []
    /\ alert_log (fst st') = [].
Proof.
  apply (fresh_engine_saves_an_empty_log (caps := Demo.caps) Demo.empty_world).
  reflexivity.
Defined.

Lemma poll_redraws_every_round_past_ten_alerts_witness :
  length (alert_log (fst (fst (DemoSession.after 11)))) = 11
  /\ periodic_update_round (pres := DemoUI.pres)
       (DemoSession.after 11)
     = update_alert_log (pres := DemoUI.pres)
         (DemoSession.after 11).
Proof.
  assert (Hlog : length (alert_log (fst (fst (DemoSession.after 11)))) = 11)
    by (vm_compute; reflexivity).
  split; [exact Hlog |].
  apply (poll_redraws_every_round_past_ten_alerts (caps := Demo.caps)
           (pres := DemoUI.pres) Demo.empty_world (DemoSession.session 11)).
  unfold DemoSession.after in Hlog. rewrite Hlog. lia.
Defined.

Lemma alert_list_shows_the_newest_first_witness :
  let x := DemoSession.after 2 in
  let log := alert_log (fst (fst x)) in
  let shown :=
    alert_log_list
      (snd (snd (update_alert_log (pres := DemoUI.pres) x))) in
  fst (snd (update_alert_log (pres := DemoUI.pres) x)) = fst x
  /\ length shown = min 10 (length log)
  /\ forall k tile, shown !! k = Some tile ->
       exists alert, log !! (length log - 1 - k) = Some alert
                     /\ alert_tile (Presentation := DemoUI.pres) alert = Ret tile.
Proof.
  apply (alert_list_shows_the_newest_first (pres := DemoUI.pres)
           (DemoSession.after 2)).
  vm_compute. reflexivity.
Defined.

Lemma every_start_launches_a_feed_thread_witness :
  let x := use (caps := Demo.caps) (pres := DemoUI.pres)
               (concat (replicate 3 [press_start; press_stop]))
               (launched (caps := Demo.caps) Demo.empty_world) in
  feed_threads (snd x) = 3 /\ surveillance_active (fst (fst x)) = false.
Proof.
  apply (every_start_launches_a_feed_thread (caps := Demo.caps) (pres := DemoUI.pres)
           Demo.empty_world (mkVideoCapture 0 true) 3); reflexivity.
Defined.

